(** * Adaptive traffic-light engine ([adaptive_tls.py]): model and properties

    The engine class [AdaptiveTrafficLight] keeps a per-vehicle history
    store, re-clusters crossing timestamps, scores vehicles, aggregates the
    scores per approach direction and turns them into bounded phase
    durations.  The Python code is embedded function by function: the
    [self.vehicles] dictionary is a [gmap], Python exceptions are an error
    monad, commands sent to the simulator are collected in a log, and
    floating-point numbers are idealised as real numbers. *)

From Stdlib Require Import Reals Lra Lia ZArith.
From stdpp Require Import gmap strings list fin_maps.

Local Open Scope R_scope.

(** ** Python exceptions and the two monads of the embedding *)

Inductive exn : Type :=
| AttributeError (name : string)
| KeyError (key : string)
| ValueError
| ZeroDivisionError.

Inductive Result (A : Type) : Type :=
| Ok (a : A)
| Raise (e : exn).
Arguments Ok {A} a.
Arguments Raise {A} e.

#[global] Instance Result_ret : MRet Result := fun A a => Ok a.
#[global] Instance Result_bind : MBind Result := fun A B f m =>
  match m with Ok a => f a | Raise e => Raise e end.

Definition is_Ok {A} (r : Result A) : Prop := exists a, r = Ok a.

(** A [for] loop that threads an accumulator and stops at the first
    exception. *)
Fixpoint foldM {A B : Type} (f : B -> A -> Result B) (l : list A) (b : B)
  : Result B :=
  match l with
  | [] => Ok b
  | x :: l' => b' ← f b x; foldM f l' b'
  end.

(** Decidable comparisons of reals, for [decide] and [filter]. *)
#[global] Instance Rlt_decision : RelDecision Rlt := Rlt_dec.
#[global] Instance Rle_decision : RelDecision Rle := Rle_dec.
#[global] Instance R_eq_decision : EqDecision R := Req_dec_T.

(** Python's float division: a zero divisor raises. *)
Definition py_div (x y : R) : Result R :=
  if decide (y = 0) then Raise ZeroDivisionError else Ok (x / y).

(** ** Data model *)

Inductive direction : Type := NS | EW.

#[global] Instance direction_eq_dec : EqDecision direction.
Proof. solve_decision. Defined.

(** One entry of a vehicle's ['patterns'] list. *)
Record Pattern : Type := mkPattern {
  peak_start : R;
  peak_end : R;
  consistency : R }.

(** One value of [self.vehicles]: ['crossings'] is the list of
    [(time, direction)] pairs, ['patterns'] is [None] until the first
    clustering run. *)
Record VehicleRecord : Type := mkVehicleRecord {
  crossings : list (R * direction);
  patterns : option (list Pattern) }.

(** What the engine sends to the simulator or to its own actuator
    methods. *)
Inductive Command : Type :=
| SetPhaseDuration (tls : string) (seconds : R)
| PreemptForEmergency (tls : string) (veh_id : string)
| SwitchToPhaseForDirection (tls : string) (d : direction).

(** The mutable part of an engine instance, together with the log of the
    commands it has issued. *)
Record Engine : Type := mkEngine {
  vehicles : gmap string VehicleRecord;
  emergency_log : list string;
  issued : list Command }.

(** [__init__]: empty store, empty logs. *)
Definition init : Engine :=
  {| vehicles := ∅; emergency_log := []; issued := [] |}.

Definition set_vehicles (vs : gmap string VehicleRecord) (e : Engine) : Engine :=
  {| vehicles := vs; emergency_log := emergency_log e; issued := issued e |}.

Definition issue (cs : list Command) (e : Engine) : Engine :=
  {| vehicles := vehicles e; emergency_log := emergency_log e;
     issued := issued e ++ cs |}.

(** The model parameters fixed by [__init__]. *)
Definition weights_frequency : R := 0.4.
Definition weights_recency : R := 0.3.
Definition weights_consistency : R := 0.3.
Definition density_weight : R := 0.3.
Definition time_boost_factor : R := 0.5.

(** State-and-exception monad of the mutating methods. *)
Definition M (A : Type) : Type := Engine -> Result (A * Engine).

#[global] Instance M_ret : MRet M := fun A a e => Ok (a, e).
#[global] Instance M_bind : MBind M := fun A B f m e =>
  match m e with Ok (a, e') => f a e' | Raise x => Raise x end.

Definition raise {A} (x : exn) : M A := fun _ => Raise x.
Definition get_self : M Engine := fun e => Ok (e, e).
Definition put_self (e : Engine) : M unit := fun _ => Ok (tt, e).
Definition lift {A} (r : Engine -> Result A) : M A := fun e =>
  match r e with Ok a => Ok (a, e) | Raise x => Raise x end.

(** The simulator state read during one tick (the [traci] queries the
    engine makes). *)
Record Traci : Type := mkTraci {
  getControlledLanes : string -> list string;
  getLastStepVehicleIDs : string -> list string;
  getDistance : string -> R;
  getTypeID : string -> string;
  getTime : R;
  getPhase : string -> Z;
  getNextSwitch : string -> R }.

(** The four methods that [adaptive_tls.py] calls on [self] without
    defining them.  A field is [None] when the class has no such
    attribute; a host that completes the class supplies [Some]
    implementation. *)
Record Methods : Type := mkMethods {
  get_approach_direction : option (string -> direction);
  handle_emergency : option (string -> list Command);
  get_current_direction : option (Z -> option direction);
  set_phase_for_direction : option (direction -> list Command) }.

(** The class exactly as the source file defines it. *)
Definition AdaptiveTrafficLight : Methods :=
  {| get_approach_direction := None; handle_emergency := None;
     get_current_direction := None; set_phase_for_direction := None |}.

(** Attribute lookup [self.name]. *)
Definition getattr {A} (name : string) (o : option A) : Result A :=
  match o with Some f => Ok f | None => Raise (AttributeError name) end.

(** ** Density-based clustering of the timestamps

    [_detect_patterns] calls [DBSCAN(eps=300, min_samples=3).fit(times)]
    of scikit-learn.  The routine is not part of the repository; it is
    modelled here after the library's algorithm, which is also the one the
    specification describes: every sample's neighbourhood is the set of
    samples within the radius (the sample itself included), a sample is a
    core sample when its neighbourhood has at least [min_samples] members,
    clusters are grown depth-first from core samples in index order, and
    samples that no cluster reaches keep the noise label [-1]. *)

Module DBSCAN.

Local Open Scope nat_scope.

(** Indices (counted from [i]) of the entries of [X] that satisfy [P]. *)
Fixpoint indices_from {T : Type} (P : T -> bool) (i : nat) (X : list T)
  : list nat :=
  match X with
  | [] => []
  | y :: X' =>
      if P y then i :: indices_from P (S i) X' else indices_from P (S i) X'
  end.

(** Modelled from the spec: the neighbourhood query of the clustering
    library (absent from src/), "run a density-based clustering pass over
    the 1-dimensional timestamp values with a neighborhood radius".  Row
    [i] lists the indices of the samples near sample [i]. *)
Definition radius_neighbors {T : Type} (near : T -> T -> bool) (X : list T)
  : list (list nat) :=
  map (fun x => indices_from (near x) 0 X) X.

Section inner.

Variable core : nat -> bool.
Variable neighbors : nat -> list nat.

Definition unlabelled (labels : list Z) (v : nat) : bool :=
  bool_decide (labels !! v = Some (-1)%Z).

(** Modelled from the spec: the cluster expansion of the clustering
    library (absent from src/), "expand clusters from core points within a
    fixed radius, require a minimum neighbor count".  The head of [work]
    is the sample under inspection, the tail is the stack; an unlabelled
    sample takes the label, and a core sample pushes its unlabelled
    neighbours. *)
Fixpoint dfs (fuel : nat) (label_num : Z) (work : list nat) (labels : list Z)
  : list Z :=
  match fuel with
  | O => labels
  | S fuel' =>
      match work with
      | [] => labels
      | i :: stack =>
          if unlabelled labels i then
            let labels1 := <[i := label_num]> labels in
            let pushed :=
              if core i then rev (List.filter (unlabelled labels1) (neighbors i))
              else [] in
            dfs fuel' label_num (pushed ++ stack) labels1
          else dfs fuel' label_num stack labels
      end
  end.

(** Number of loop iterations still possible: one per unlabelled sample
    and one per entry that labelling it can push. *)
Fixpoint pending (j : nat) (labels : list Z) : nat :=
  match labels with
  | [] => 0
  | c :: labels' =>
      (if bool_decide (c = (-1)%Z) then S (length (neighbors j)) else 0)
      + pending (S j) labels'
  end.

Definition dfs_fuel (labels : list Z) : nat := S (S (pending 0 labels)).

(** One round of the outer loop over the sample indices. *)
Definition visit (st : list Z * Z) (i : nat) : list Z * Z :=
  let '(labels, label_num) := st in
  if negb (unlabelled labels i) || negb (core i) then st
  else (dfs (dfs_fuel labels) label_num [i] labels, (label_num + 1)%Z).

(** Modelled from the spec: the labelling loop of the clustering library
    (absent from src/), "treat unassigned points as noise": all samples
    start with label [-1], cluster numbers count from 0. *)
Definition dbscan_inner (n : nat) : list Z :=
  fst (fold_left visit (seq 0 n) (replicate n (-1)%Z, 0%Z)).

End inner.

(** Modelled from the spec: [DBSCAN(eps, min_samples).fit(X).labels_] of
    the clustering library (absent from src/), for an arbitrary nearness
    test. *)
Definition fit_with {T : Type} (near : T -> T -> bool) (min_samples : nat)
    (X : list T) : list Z :=
  let neighborhoods := radius_neighbors near X in
  let neighbors := fun i => default [] (neighborhoods !! i) in
  let core := fun i => bool_decide (min_samples <= length (neighbors i)) in
  dbscan_inner core neighbors (length X).

(** A sample carries a cluster number. *)
Definition labelled (labels : list Z) (v : nat) : Prop :=
  exists c, labels !! v = Some c /\ c <> (-1)%Z.

(** The positions that carry label [c]. *)
Definition members (labels : list Z) (c : Z) : list nat :=
  indices_from (fun c' => bool_decide (c' = c)) 0 labels.

(** What the expansion needs from the neighbourhoods of [n] samples:
    they list valid indices without repetition, every sample is its own
    neighbour, nearness is symmetric, core samples are those with at
    least [min_samples] neighbours, and [min_samples] is at most 3. *)
Record graph_ok (n min_samples : nat) (core : nat -> bool)
    (neighbors : nat -> list nat) : Prop := mk_graph_ok {
  nb_range : forall u v, v ∈ neighbors u -> u < n /\ v < n;
  nb_refl : forall u, u < n -> u ∈ neighbors u;
  nb_sym : forall u v, v ∈ neighbors u -> u ∈ neighbors v;
  nb_nodup : forall u, NoDup (neighbors u);
  core_def : forall u, core u = bool_decide (min_samples <= length (neighbors u));
  min_samples_le_3 : min_samples <= 3 }.

(** Two core samples are linked when one lies in the neighbourhood of
    the other. *)
Definition linked (core : nat -> bool) (neighbors : nat -> list nat)
    (u v : nat) : Prop :=
  core u = true /\ core v = true /\ v ∈ neighbors u.

(** The state of the labelling between two cluster expansions: every
    neighbour of a labelled core sample is labelled, with the same label
    when it is a core sample too; every labelled sample that is not core
    has a core neighbour with its label; every label in use has at least
    [min_samples] members; and two core samples with the same label are
    joined by a chain of linked core samples. *)
Record clusters_ok (n min_samples : nat) (core : nat -> bool)
    (neighbors : nat -> list nat) (labels : list Z) : Prop := mk_clusters_ok {
  ok_length : length labels = n;
  ok_complete : forall u v c,
    labels !! u = Some c -> c <> (-1)%Z -> core u = true -> v ∈ neighbors u ->
    labelled labels v /\ (core v = true -> labels !! v = Some c);
  ok_border : forall v c,
    labels !! v = Some c -> c <> (-1)%Z -> core v = false ->
    exists u, core u = true /\ labels !! u = Some c /\ v ∈ neighbors u;
  ok_size : forall v c,
    labels !! v = Some c -> c <> (-1)%Z -> min_samples <= length (members labels c);
  ok_chain : forall u v c,
    labels !! u = Some c -> labels !! v = Some c -> c <> (-1)%Z ->
    core u = true -> core v = true -> rtc (linked core neighbors) u v }.

(** The state of one expansion, started from [labels0] at the core
    sample [seed] with cluster number [k]: labels only change from [-1]
    to [k]; a neighbour of a newly labelled core sample is labelled or
    waits in [work]; whatever waits in [work] is the seed or a neighbour
    of a core sample of the cluster; a newly labelled sample that is not
    core has a core neighbour in the cluster; and every newly labelled
    core sample is joined to the seed by a chain of linked core
    samples. *)
Record dfs_inv (n : nat) (core : nat -> bool) (neighbors : nat -> list nat)
    (labels0 : list Z) (k : Z) (seed : nat) (work : list nat)
    (labels : list Z) : Prop := mk_dfs_inv {
  inv_length : length labels = n;
  inv_extends : forall v,
    labels !! v = labels0 !! v
    \/ (labels0 !! v = Some (-1)%Z /\ labels !! v = Some k);
  inv_frontier : forall u v,
    labels0 !! u = Some (-1)%Z -> labels !! u = Some k -> core u = true ->
    v ∈ neighbors u -> labelled labels v \/ v ∈ work;
  inv_work : forall v, v ∈ work ->
    v = seed
    \/ exists u, core u = true /\ labels0 !! u = Some (-1)%Z
                 /\ labels !! u = Some k /\ v ∈ neighbors u;
  inv_border : forall v,
    labels0 !! v = Some (-1)%Z -> labels !! v = Some k -> core v = false ->
    exists u, core u = true /\ labels !! u = Some k /\ v ∈ neighbors u;
  inv_chain : forall v,
    labels0 !! v = Some (-1)%Z -> labels !! v = Some k -> core v = true ->
    rtc (linked core neighbors) seed v;
  inv_seed : seed ∈ work \/ labels !! seed = Some k }.

(** Nearness and density of the samples at two positions of [X], for an
    arbitrary nearness test. *)
Definition near_at {T : Type} (near : T -> T -> bool) (X : list T)
    (u v : nat) : Prop :=
  exists x y, X !! u = Some x /\ X !! v = Some y /\ near x y = true.

Definition core_at {T : Type} (near : T -> T -> bool) (min_samples : nat)
    (X : list T) (u : nat) : Prop :=
  exists x, X !! u = Some x /\ min_samples <= length (List.filter (near x) X).

(** Nearness of two timestamps: distance at most [eps]. *)
Definition within (eps x y : R) : bool := bool_decide (Rabs (x - y) <= eps)%R.

Definition fit (eps : R) (min_samples : nat) (X : list R) : list Z :=
  fit_with (within eps) min_samples X.

End DBSCAN.

(** ** NumPy and Python helpers *)

Definition np_sum (a : list R) : R := foldr Rplus 0 a.
Definition np_mean (a : list R) : R := np_sum a / INR (length a).

(** Population standard deviation ([np.std] with its default [ddof=0]). *)
Definition np_std (a : list R) : R :=
  sqrt (np_mean (map (fun x => (x - np_mean a) ^ 2) a)).

(** [np.min] and [np.max]; NumPy rejects an empty array, which
    [_detect_patterns] never passes (lemma [clusters_nonempty]). *)
Definition np_min (a : list R) : R :=
  match a with [] => 0 | x :: a' => fold_left Rmin a' x end.
Definition np_max (a : list R) : R :=
  match a with [] => 0 | x :: a' => fold_left Rmax a' x end.

(** Python's [max] and [min] over a sequence; an empty argument is an
    error in Python, and [calculate_priority] only calls them under the
    truthiness test of the pattern list. *)
Definition py_max (l : list R) : R :=
  match l with [] => 0 | x :: l' => fold_left Rmax l' x end.
Definition py_min (l : list R) : R :=
  match l with [] => 0 | x :: l' => fold_left Rmin l' x end.

(** [max(keys, key=f)]: the first key whose [f] value is maximal. *)
Definition py_max_key {A} (f : A -> R) (x : A) (l : list A) : A :=
  fold_left (fun best y => if decide (f best < f y) then y else best) l x.

(** Boolean-mask selection [times[labels == i]]. *)
Definition select (labels : list Z) (i : Z) (times : list R) : list R :=
  (filter (fun p : Z * R => p.1 = i) (zip labels times)).*2.

(** ** The methods of [AdaptiveTrafficLight] *)

Section engine.

(** [cls] says which of the four helper methods exist, [traci] is the
    simulator state of the current tick, [tls_id] the signal the engine
    controls. *)
Variable cls : Methods.
Variable traci : Traci.
Variable tls_id : string.

(** [detect_vehicles]: the vehicles on the controlled lanes whose
    reported distance is below 50, lane by lane. *)
Definition detect_vehicles : list string :=
  flat_map
    (fun lane =>
       filter (fun veh_id => getDistance traci veh_id < 50)
              (getLastStepVehicleIDs traci lane))
    (getControlledLanes traci tls_id).

(** The clusters [_detect_patterns] builds from the labels: one array of
    timestamps per label in [set(labels)] other than [-1].  Python fixes
    no iteration order for a set; no property below depends on the order
    of the clusters. *)
Definition clusters (times : list R) : list (list R) :=
  let labels := DBSCAN.fit 300 3 times in
  map (fun i => select labels i times)
      (filter (fun i : Z => i <> (-1)%Z) (elements (list_to_set (C := gset Z) labels))).

Definition pattern_of (cluster : list R) : Pattern :=
  {| peak_start := np_min cluster;
     peak_end := np_max cluster;
     consistency := 1 / (np_std cluster + 1e-6) |}.

(** [_detect_patterns]: re-cluster all crossing times of [veh_id] and
    overwrite its ['patterns'] entry.  The input validation of [fit]
    requires at least one sample and raises [ValueError] for an empty
    array. *)
Definition _detect_patterns (veh_id : string) : M unit :=
  self ← get_self;
  match vehicles self !! veh_id with
  | None => raise (KeyError veh_id)
  | Some hist =>
      let times := map fst (crossings hist) in
      match times with
      | [] => raise ValueError
      | _ :: _ =>
          let patterns := map pattern_of (clusters times) in
          put_self
            (set_vehicles
               (<[veh_id := {| crossings := crossings hist;
                               patterns := Some patterns |}]> (vehicles self))
               self)
      end
  end.

(** [update_vehicle_history]: append the crossing, creating the record
    when the vehicle is new, and re-cluster every fifth crossing. *)
Definition update_vehicle_history (veh_id : string) : M unit :=
  approach ← lift (fun _ => getattr "get_approach_direction"
                              (get_approach_direction cls));
  let direction := approach veh_id in
  let time := getTime traci in
  self ← get_self;
  let hist := default {| crossings := []; patterns := None |}
                      (vehicles self !! veh_id) in
  let hist' := {| crossings := crossings hist ++ [(time, direction)];
                  patterns := patterns hist |} in
  put_self (set_vehicles (<[veh_id := hist']> (vehicles self)) self);;
  if decide (length (crossings hist') mod 5 = 0)%nat
  then _detect_patterns veh_id
  else mret tt.

(** The recency term of the priority. *)
Definition recency_term (current_time last_time : R) : Result R :=
  py_div 1 (1 + (current_time - last_time) / 3600).

(** The consistency term of the priority: pattern match when the vehicle
    has patterns, the constant 0.5 otherwise ([None] and the empty list
    are both falsy). *)
Definition consistency_term (current_time : R) (hist : VehicleRecord) : R :=
  match patterns hist with
  | Some (p :: ps) =>
      let time_diffs :=
        map (fun p => Rabs (current_time - peak_start p)) (p :: ps) in
      py_max (map consistency (p :: ps)) / (1 + py_min time_diffs)
  | _ => 0.5
  end.

(** [calculate_priority]: reads the store, never writes it. *)
Definition calculate_priority (self : Engine) (veh_id : string) : Result R :=
  match vehicles self !! veh_id with
  | None => Ok 0
  | Some hist =>
      match last (crossings hist) with
      | None => Ok 0
      | Some (last_time, _) =>
          let n := length (crossings hist) in
          let freq := ln (1 + INR n) in
          let current_time := getTime traci in
          recency ← recency_term current_time last_time;
          let consistency := consistency_term current_time hist in
          Ok (weights_frequency * freq
              + weights_recency * recency
              + weights_consistency * consistency)
      end
  end.

(** Truthiness of [self.vehicles.get(veh_id, {}).get('patterns')]. *)
Definition has_patterns (self : Engine) (veh_id : string) : bool :=
  match vehicles self !! veh_id with
  | Some hist =>
      match patterns hist with Some (_ :: _) => true | _ => false end
  | None => false
  end.

(** [get_direction_weight]: priority sum, density term, pattern boost. *)
Definition get_direction_weight (self : Engine) (direction : direction)
  : Result R :=
  let vehicles := detect_vehicles in
  total_weight ←
    foldM (fun total_weight veh_id =>
             approach ← getattr "get_approach_direction"
                                (get_approach_direction cls);
             if decide (approach veh_id = direction)
             then p ← calculate_priority self veh_id; Ok (total_weight + p)
             else Ok total_weight)
          vehicles 0;
  density ←
    foldM (fun density veh_id =>
             approach ← getattr "get_approach_direction"
                                (get_approach_direction cls);
             if decide (approach veh_id = direction)
             then Ok (S density) else Ok density)
          vehicles 0%nat;
  let total_weight := total_weight + density_weight * INR density in
  if existsb (has_patterns self) vehicles
  then Ok (total_weight * (1 + time_boost_factor))
  else Ok total_weight.

(** The phase duration computed from one direction's weight. *)
Definition phase_duration (weight total_weight : R) : Result R :=
  normalized_weight ← py_div weight total_weight;
  Ok (Rmax 15 (Rmin 60 (30 * (0.5 + normalized_weight)))).

(** The emergency test of [control_logic]. *)
Definition is_emergency (veh_id : string) : bool :=
  String.eqb (getTypeID traci veh_id) "emergency".

(** [control_logic]: one tick of the controller. *)
Definition control_logic : M unit := fun self =>
  match List.find is_emergency detect_vehicles with
  | Some veh_id =>
      handler ← getattr "handle_emergency" (handle_emergency cls);
      Ok (tt, issue (handler veh_id) self)
  | None =>
      w_NS ← get_direction_weight self NS;
      w_EW ← get_direction_weight self EW;
      let weights := fun d => match d with NS => w_NS | EW => w_EW end in
      let total_weight := 0 + w_NS + w_EW in
      if decide (0 < total_weight) then
        d_NS ← phase_duration (weights NS) total_weight;
        d_EW ← phase_duration (weights EW) total_weight;
        let phase_durations := fun d => match d with NS => d_NS | EW => d_EW end in
        let current_phase := getPhase traci tls_id in
        current ← getattr "get_current_direction" (get_current_direction cls);
        match current current_phase with
        | Some current_direction =>
            let remaining := getNextSwitch traci tls_id - getTime traci in
            if decide (remaining < phase_durations current_direction) then
              Ok (tt, issue [SetPhaseDuration tls_id
                               (phase_durations current_direction - remaining)]
                            self)
            else Ok (tt, self)
        | None =>
            let next_direction := py_max_key weights NS [EW] in
            switch ← getattr "set_phase_for_direction"
                             (set_phase_for_direction cls);
            Ok (tt, issue (switch next_direction) self)
        end
      else Ok (tt, self)
  end.

End engine.

(** ** Runs of the engine *)

(** The public entry points that change the engine. *)
Inductive call : Type :=
| CallUpdate (veh_id : string)
| CallControl.

Definition run_call (cls : Methods) (traci : Traci) (tls_id : string)
    (c : call) : M unit :=
  match c with
  | CallUpdate veh_id => update_vehicle_history cls traci veh_id
  | CallControl => control_logic cls traci tls_id
  end.

(** [reachable cls tls_id t self]: the engine state [self] arises from
    [__init__] by calls that return normally, each made against a
    simulator whose clock never runs backwards; [t] is the clock at the
    last call. *)
Inductive reachable (cls : Methods) (tls_id : string) : R -> Engine -> Prop :=
| reach_init t : reachable cls tls_id t init
| reach_call t self traci c self' :
    reachable cls tls_id t self ->
    t <= getTime traci ->
    run_call cls traci tls_id c self = Ok (tt, self') ->
    reachable cls tls_id (getTime traci) self'.

(** The store invariant behind the non-negative scores: no crossing lies
    in the future and every stored pattern has a positive consistency. *)
Definition store_ok (t : R) (vs : gmap string VehicleRecord) : Prop :=
  forall veh_id hist, vs !! veh_id = Some hist ->
    Forall (fun c : R * direction => c.1 <= t) (crossings hist)
    /\ (forall pats, patterns hist = Some pats ->
          Forall (fun p => 0 < consistency p) pats).

(** The batch invariant: a record with fewer than five crossings has
    never been clustered. *)
Definition batch_ok (vs : gmap string VehicleRecord) : Prop :=
  forall veh_id hist, vs !! veh_id = Some hist ->
    (length (crossings hist) < 5)%nat -> patterns hist = None.

(** [m] is the largest (smallest) element of [l]. *)
Definition is_max (m : R) (l : list R) : Prop :=
  m ∈ l /\ forall x, x ∈ l -> x <= m.
Definition is_min (m : R) (l : list R) : Prop :=
  m ∈ l /\ forall x, x ∈ l -> m <= x.

(** Sum of a list of reals. *)
Definition Rsum (l : list R) : R := foldr Rplus 0 l.

(** The priority as a number (0 where [calculate_priority] raises). *)
Definition priority_value (traci : Traci) (self : Engine) (veh_id : string) : R :=
  match calculate_priority traci self veh_id with
  | Ok p => p
  | Raise _ => 0
  end.

(** The phase decision as the specification words it: extend a tracked
    phase that is shorter than its target; in every other case switch to
    the direction with the higher weight. *)
Definition phase_decision_spec (tls_id : string) (w_NS w_EW d_NS d_EW : R)
    (current : option direction) (remaining : R)
    (switch : direction -> list Command) : list Command :=
  let duration := fun d => match d with NS => d_NS | EW => d_EW end in
  let higher := if decide (w_NS < w_EW) then EW else NS in
  match current with
  | Some d =>
      if decide (remaining < duration d)
      then [SetPhaseDuration tls_id (duration d - remaining)]
      else switch higher
  | None => switch higher
  end.

(** The phase decision as the code takes it: a tracked phase that
    already lasts long enough is left alone. *)
Definition phase_decision_code (tls_id : string) (w_NS w_EW d_NS d_EW : R)
    (current : option direction) (remaining : R)
    (switch : direction -> list Command) : list Command :=
  let duration := fun d => match d with NS => d_NS | EW => d_EW end in
  let higher := if decide (w_NS < w_EW) then EW else NS in
  match current with
  | Some d =>
      if decide (remaining < duration d)
      then [SetPhaseDuration tls_id (duration d - remaining)]
      else []
  | None => switch higher
  end.

(** The bounded duration formula. *)
Definition clamp (x lo hi : R) : R := Rmax lo (Rmin hi x).

(** ** A completed class and sample ticks *)

(** Modelled from the spec: [handle_emergency], called by [control_logic]
    and defined nowhere under src/; the specification's actuator
    interface has it emit [preemptForEmergency(signalId, vehicleId)]. *)
Definition handle_emergency_spec (tls_id veh_id : string) : list Command :=
  [PreemptForEmergency tls_id veh_id].

(** Modelled from the spec: [set_phase_for_direction], called by
    [control_logic] and defined nowhere under src/; the specification's
    actuator interface has it emit
    [switchToPhaseForDirection(signalId, direction)]. *)
Definition set_phase_for_direction_spec (tls_id : string) (d : direction)
  : list Command :=
  [SwitchToPhaseForDirection tls_id d].

(** Modelled from the spec: [get_approach_direction] and
    [get_current_direction], called by the engine and defined nowhere
    under src/; the specification has the data source report
    [approachDirection(vehicleId)] in [{NS, EW}] and phases that are
    either tracked directions or transition phases.  Here vehicles whose
    id starts with ["e"] approach east-west, phase 0 is NS, phase 2 is EW
    and the other phases are transitions. *)
Definition host (tls_id : string) : Methods :=
  {| get_approach_direction :=
       Some (fun veh_id => if String.prefix "e" veh_id then EW else NS);
     handle_emergency := Some (handle_emergency_spec tls_id);
     get_current_direction :=
       Some (fun phase => if decide (phase = 0%Z) then Some NS
                          else if decide (phase = 2%Z) then Some EW
                          else None);
     set_phase_for_direction := Some (set_phase_for_direction_spec tls_id) |}.

(** A tick with the vehicles [vehs] on the single controlled lane, all
    10 length units along, of type [type veh_id], at time [now], in phase
    [phase] with the next switch due at [next_switch]. *)
Definition tick (vehs : list string) (type : string -> string)
    (now : R) (phase : Z) (next_switch : R) : Traci :=
  {| getControlledLanes := fun _ => ["lane_0"%string];
     getLastStepVehicleIDs := fun _ => vehs;
     getDistance := fun _ => 10;
     getTypeID := type;
     getTime := now;
     getPhase := fun _ => phase;
     getNextSwitch := fun _ => next_switch |}.

Definition passenger : string -> string := fun _ => "passenger"%string.

(** Vehicle classes for the sample ticks: ids starting with ["amb"] are
    emergency vehicles. *)
Definition sample_type (veh_id : string) : string :=
  if String.prefix "amb" veh_id then "emergency"%string else "passenger"%string.

(** A sample engine state: vehicle ["n1"] has crossed once, at time 100. *)
Definition sample_engine : Engine :=
  set_vehicles
    (<["n1"%string := {| crossings := [(100, NS)]; patterns := None |}]> ∅)
    init.

(** Scenario A of the specification: five crossings, 300 s apart. *)
Definition scenario_A_engine : Engine :=
  set_vehicles
    (<["n1"%string :=
         {| crossings := [(0, NS); (300, NS); (600, NS); (900, NS); (1200, NS)];
            patterns := None |}]> ∅)
    init.

(** Nearness of integer timestamps, for running the clustering. *)
Definition withinZ (eps x y : Z) : bool := bool_decide (Z.abs (x - y) <= eps)%Z.

(** ** The driving loop and further notions for the properties *)

(** Python's float remainder [x % m] for a positive modulus. *)
Definition py_mod (x m : R) : R := x - m * IZR (Int_part (x / m)).

(** One iteration of the [while] loop of [SimulationController.run],
    after [traci.simulationStep()]: the controller tick and then, when
    the time is a multiple of [period], the progress line, which
    formats the NS and the EW weight.  The result is the engine after
    the iteration and the exception that leaves the loop, if any
    ([control_logic] raises before it sends anything).  Trip logging,
    printing, the GUI calls and the delay do not touch the engine and
    are left out; [update_visualization] catches its own exceptions. *)
Definition run_iteration (cls : Methods) (tls_id : string) (period : R)
    (traci : Traci) (self : Engine) : Engine * option exn :=
  match control_logic cls traci tls_id self with
  | Raise e => (self, Some e)
  | Ok (_, self1) =>
      if decide (py_mod (getTime traci) period = 0) then
        match (_ ← get_direction_weight cls traci tls_id self1 NS;
               get_direction_weight cls traci tls_id self1 EW) with
        | Raise e => (self1, Some e)
        | Ok _ => (self1, None)
        end
      else (self1, None)
  end.

(** [SimulationController.run]: the loop over the simulator states of
    the successive steps (one per [traci.simulationStep()] while
    vehicles are expected); any exception ends the loop.  The period of
    the progress line is 10 in [mainoutput.py] and 5 in
    [adaptive_control.py]. *)
Fixpoint run (cls : Methods) (tls_id : string) (period : R)
    (steps : list Traci) (self : Engine) : Engine * option exn :=
  match steps with
  | [] => (self, None)
  | traci :: steps' =>
      match run_iteration cls tls_id period traci self with
      | (self1, None) => run cls tls_id period steps' self1
      | stop => stop
      end
  end.

(** The demand of direction [d] before the pattern boost: priorities
    plus density of the vehicles in [vehs] that approach in [d]. *)
Definition base_weight (traci : Traci) (self : Engine)
    (approach : string -> direction) (vehs : list string) (d : direction) : R :=
  Rsum (map (priority_value traci self) (filter (fun v => approach v = d) vehs))
  + 0.3 * INR (length (filter (fun v => approach v = d) vehs)).

(** The pattern list a record holds after its crossings were recorded
    one by one: none below five crossings, otherwise the clustering of
    the crossings up to the last multiple of five. *)
Definition batch_patterns (cs : list (R * direction)) : option (list Pattern) :=
  if decide (length cs < 5)%nat then None
  else Some (map pattern_of
                 (clusters (map fst (take (5 * (length cs / 5)) cs)))).

(** The record of a vehicle whose crossing was recorded [n] times at
    the same clock value [t]. *)
Definition same_tick_record (n : nat) (t : R) (d : direction) : VehicleRecord :=
  {| crossings := replicate n (t, d);
     patterns := batch_patterns (replicate n (t, d)) |}.

(** The other approach. *)
Definition opposite (d : direction) : direction :=
  match d with NS => EW | EW => NS end.

(** An engine state with a stored pattern: the crossing of vehicle
    ["n1"] was recorded five times at time 0. *)
Definition pattern_engine : Engine :=
  set_vehicles (<["n1"%string := same_tick_record 5 0 NS]> ∅) init.

(** Following the spec's words, "ANY in-range vehicle (in any direction)
    has a non-empty pattern set". *)
Definition some_pattern_in_range (self : Engine) (in_range : list string) : Prop :=
  exists veh_id hist p ps,
    veh_id ∈ in_range
    /\ vehicles self !! veh_id = Some hist
    /\ patterns hist = Some (p :: ps).

(** ** The clustering in the specification's words *)

(** Following the spec's words, "a neighborhood radius of 300 (time
    units)": the timestamps at positions [u] and [v] of the sequence lie
    at most 300 apart. *)
Definition within_radius (times : list R) (u v : nat) : Prop :=
  exists x y, times !! u = Some x /\ times !! v = Some y /\ Rabs (x - y) <= 300.

(** Following the spec's words, "a minimum-cluster-size of 3": at least
    three timestamps of the sequence, the one at position [u] included,
    lie within the radius of the one at position [u]. *)
Definition dense (times : list R) (u : nat) : Prop :=
  exists x, times !! u = Some x
            /\ (3 <= length (filter (fun y => (Rabs (x - y) <= 300)%R) times))%nat.

(** Two dense positions within the radius of each other. *)
Definition density_linked (times : list R) (u v : nat) : Prop :=
  dense times u /\ dense times v /\ within_radius times u v.

(** * Properties *)

(** ** Arithmetic of the scoring formulas *)

Lemma py_div_Ok (x y : R) : y <> 0 -> py_div x y = Ok (x / y).
Proof. intros Hy. unfold py_div. by rewrite decide_False. Qed.

Lemma py_div_zero (x : R) : py_div x 0 = Raise ZeroDivisionError.
Proof. unfold py_div. by rewrite decide_True. Qed.

Lemma clamp_bounds (x : R) : 15 <= clamp x 15 60 <= 60.
Proof.
  unfold clamp, Rmax, Rmin.
  destruct (Rle_dec 60 x); destruct (Rle_dec 15 _); lra.
Qed.

Lemma phase_duration_Ok (w total : R) :
  total <> 0 ->
  phase_duration w total = Ok (clamp (30 * (0.5 + w / total)) 15 60).
Proof.
  intros Ht. unfold phase_duration. rewrite py_div_Ok by done. reflexivity.
Qed.

Lemma issue_nil (self : Engine) : issue [] self = self.
Proof. destruct self. unfold issue. simpl. by rewrite app_nil_r. Qed.

Lemma inv_ge_1 (d : R) : 1 <= d -> 0 < 1 / d <= 1.
Proof.
  intros Hd. unfold Rdiv. rewrite Rmult_1_l. split.
  - apply Rinv_0_lt_compat. lra.
  - rewrite <- Rinv_1. apply Rinv_le_contravar; lra.
Qed.

Lemma div_unit (a b : R) : 0 <= a <= b -> 0 < b -> 0 <= a / b <= 1.
Proof.
  intros Ha Hb. unfold Rdiv.
  pose proof (Rinv_0_lt_compat b Hb) as Hinv.
  assert (Hone : b * / b = 1) by (apply Rinv_r; lra).
  split; nra.
Qed.

Lemma recency_term_Ok (now last : R) :
  last <= now ->
  recency_term now last = Ok (1 / (1 + (now - last) / 3600)).
Proof. intros H. unfold recency_term. apply py_div_Ok. lra. Qed.

(** C9. For [now >= lastCrossingTime] the recency term
    [1 / (1 + (now - lastCrossingTime) / 3600)] is computed without error,
    lies in the half-open interval (0, 1], is exactly 1 at
    [now = lastCrossingTime], and every later [now'] gives a strictly
    smaller value. *)
Theorem recency_in_unit_interval_decreasing (now last : R) :
  last <= now ->
  exists r,
    recency_term now last = Ok r
    /\ r = 1 / (1 + (now - last) / 3600)
    /\ 0 < r <= 1
    /\ (now = last -> r = 1)
    /\ forall now', now < now' ->
         exists r', recency_term now' last = Ok r' /\ r' < r.
Proof.
  intros Hle. eexists. split; [by apply recency_term_Ok|].
  split; [done|]. split; [apply inv_ge_1; lra|]. split.
  - intros ->. replace (1 + (last - last) / 3600) with 1 by lra. lra.
  - intros now' Hlt. eexists. split; [apply recency_term_Ok; lra|].
    unfold Rdiv at 1 3. rewrite !Rmult_1_l.
    apply Rinv_0_lt_contravar; lra.
Qed.

Lemma recency_in_unit_interval_decreasing_witness :
  0 <= 3600
  /\ exists r,
       recency_term 3600 0 = Ok r
       /\ r = 1 / (1 + (3600 - 0) / 3600)
       /\ 0 < r <= 1
       /\ (3600 = 0 -> r = 1)
       /\ forall now', 3600 < now' ->
            exists r', recency_term now' 0 = Ok r' /\ r' < r.
Proof.
  split; [lra|].
  apply (recency_in_unit_interval_decreasing 3600 0). lra.
Defined.

(** ** The controller tick *)

Lemma find_first {A} (P : A -> bool) (before after : list A) (x : A) :
  Forall (fun y => P y = false) before -> P x = true ->
  List.find P (before ++ x :: after) = Some x.
Proof.
  intros Hb Hx. induction Hb as [|y before Hy _ IH]; simpl.
  - by rewrite Hx.
  - by rewrite Hy.
Qed.

Lemma find_none_existsb {A} (P : A -> bool) (l : list A) :
  List.find P l = None <-> existsb P l = false.
Proof.
  induction l as [|y l IH]; simpl; [done|].
  destruct (P y); simpl; [split; discriminate|done].
Qed.

(** With no emergency vehicle in range and both weights available, the
    tick reduces to the phase decision. *)
Lemma control_logic_scored cls traci tls_id self w_NS w_EW :
  List.find (is_emergency traci) (detect_vehicles traci tls_id) = None ->
  get_direction_weight cls traci tls_id self NS = Ok w_NS ->
  get_direction_weight cls traci tls_id self EW = Ok w_EW ->
  control_logic cls traci tls_id self =
    if decide (0 < w_NS + w_EW) then
      current ← getattr "get_current_direction" (get_current_direction cls);
      match current (getPhase traci tls_id) with
      | Some d =>
          let duration :=
            clamp (30 * (0.5 + (match d with NS => w_NS | EW => w_EW end)
                               / (w_NS + w_EW))) 15 60 in
          let remaining := getNextSwitch traci tls_id - getTime traci in
          Ok (tt, issue (if decide (remaining < duration)
                         then [SetPhaseDuration tls_id (duration - remaining)]
                         else []) self)
      | None =>
          switch ← getattr "set_phase_for_direction"
                           (set_phase_for_direction cls);
          Ok (tt, issue (switch (if decide (w_NS < w_EW) then EW else NS)) self)
      end
    else Ok (tt, self).
Proof.
  intros Hfind HNS HEW. unfold control_logic.
  rewrite Hfind, HNS, HEW. simpl.
  replace (0 + w_NS + w_EW) with (w_NS + w_EW) by lra.
  destruct (decide (0 < w_NS + w_EW)) as [Hpos|]; [|done].
  rewrite !phase_duration_Ok by lra. simpl.
  destruct (get_current_direction cls) as [current|]; simpl; [|done].
  destruct (current (getPhase traci tls_id)) as [d|].
  - destruct d; simpl; case_decide; by rewrite ?issue_nil.
  - done.
Qed.

(** The tick never writes the history store. *)
Lemma control_logic_store cls traci tls_id self self' :
  control_logic cls traci tls_id self = Ok (tt, self') ->
  vehicles self' = vehicles self.
Proof.
  unfold control_logic. intros H.
  repeat match type of H with
         | (match ?x with _ => _ end) = Ok _ => destruct x; simpl in H
         | (if ?x then _ else _) = Ok _ => destruct x; simpl in H
         | (?m ≫= _) = Ok _ => destruct m; simpl in H
         | Raise _ = Ok _ => discriminate H
         | Ok _ = Ok _ => injection H as <-
         end; done.
Qed.

Lemma detect_vehicles_tick vehs type now phase next_switch tls_id :
  detect_vehicles (tick vehs type now phase next_switch) tls_id = vehs.
Proof.
  unfold detect_vehicles. simpl. rewrite app_nil_r.
  induction vehs as [|v vehs IH]; [done|].
  rewrite filter_cons_True by lra. by rewrite IH.
Qed.

(** C3. On a tick where an in-range vehicle is of type "emergency", the
    engine hands the first such vehicle (in detection order) to the
    emergency handler and returns: the only effect of the tick is that
    handler's command, whatever the store holds and even when the
    scoring helpers are missing, so no weight, priority or duration is
    computed and no second emergency vehicle is looked at. *)
Theorem emergency_short_circuits cls traci tls_id self before veh_id after handler :
  detect_vehicles traci tls_id = before ++ veh_id :: after ->
  Forall (fun v => getTypeID traci v <> "emergency"%string) before ->
  getTypeID traci veh_id = "emergency"%string ->
  handle_emergency cls = Some handler ->
  control_logic cls traci tls_id self = Ok (tt, issue (handler veh_id) self).
Proof.
  intros Hdet Hbefore Hveh Hhandler. unfold control_logic.
  rewrite Hdet, find_first, Hhandler; [done| |].
  - eapply Forall_impl; [exact Hbefore|]. intros v Hv. simpl.
    unfold is_emergency. by apply String.eqb_neq.
  - unfold is_emergency. by apply String.eqb_eq.
Qed.

Lemma emergency_short_circuits_witness :
  let traci := tick ["v1"; "amb1"; "amb2"]%string sample_type 100 0 130 in
  detect_vehicles traci "J1" = ["v1"%string] ++ "amb1"%string :: ["amb2"%string]
  /\ Forall (fun v => getTypeID traci v <> "emergency"%string) ["v1"%string]
  /\ getTypeID traci "amb1" = "emergency"%string
  /\ control_logic
       {| get_approach_direction := None;
          handle_emergency := Some (handle_emergency_spec "J1");
          get_current_direction := None;
          set_phase_for_direction := None |}
       traci "J1" init
     = Ok (tt, issue [PreemptForEmergency "J1" "amb1"] init).
Proof.
  intros traci.
  assert (Hdet : detect_vehicles traci "J1"
                 = ["v1"%string] ++ "amb1"%string :: ["amb2"%string])
    by apply detect_vehicles_tick.
  assert (Hbefore : Forall (fun v => getTypeID traci v <> "emergency"%string)
                           ["v1"%string])
    by (repeat constructor; discriminate).
  repeat split; try done.
  apply (emergency_short_circuits _ traci "J1" init ["v1"%string] "amb1"%string
           ["amb2"%string] (handle_emergency_spec "J1") Hdet Hbefore);
    reflexivity.
Defined.

(** ** Direction weights in closed form *)

Section weights.

Variables (cls : Methods) (traci : Traci) (tls_id : string) (self : Engine).
Variable approach : string -> direction.
Hypothesis Happroach : get_approach_direction cls = Some approach.

Lemma priority_loop (d : direction) (l : list string) (acc : R) :
  Forall (fun v => is_Ok (calculate_priority traci self v)) l ->
  foldM (fun total_weight veh_id =>
           approach ← getattr "get_approach_direction"
                              (get_approach_direction cls);
           if decide (approach veh_id = d)
           then p ← calculate_priority traci self veh_id; Ok (total_weight + p)
           else Ok total_weight) l acc
  = Ok (acc + Rsum (map (priority_value traci self)
                        (filter (fun v => approach v = d) l))).
Proof.
  intros Hl. rewrite Happroach. revert acc.
  induction Hl as [|v l [p Hp] _ IH]; intros acc; simpl.
  - f_equal. lra.
  - rewrite filter_cons. case_decide; simpl.
    + rewrite Hp. simpl. rewrite IH. f_equal.
      unfold priority_value at 2. rewrite Hp. lra.
    + apply IH.
Qed.

Lemma density_loop (d : direction) (l : list string) (acc : nat) :
  foldM (fun density veh_id =>
           approach ← getattr "get_approach_direction"
                              (get_approach_direction cls);
           if decide (approach veh_id = d)
           then Ok (S density) else Ok density) l acc
  = Ok (acc + length (filter (fun v => approach v = d) l))%nat.
Proof.
  rewrite Happroach. revert acc.
  induction l as [|v l IH]; intros acc; simpl.
  - f_equal. lia.
  - rewrite filter_cons. case_decide; simpl.
    + rewrite IH. f_equal. lia.
    + apply IH.
Qed.

Lemma get_direction_weight_closed (d : direction) :
  Forall (fun v => is_Ok (calculate_priority traci self v))
         (detect_vehicles traci tls_id) ->
  get_direction_weight cls traci tls_id self d =
    let approaching :=
      filter (fun v => approach v = d) (detect_vehicles traci tls_id) in
    let base := Rsum (map (priority_value traci self) approaching)
                + density_weight * INR (length approaching) in
    Ok (if existsb (has_patterns self) (detect_vehicles traci tls_id)
        then base * (1 + time_boost_factor) else base).
Proof.
  intros Hok. unfold get_direction_weight.
  rewrite priority_loop by done. simpl.
  rewrite density_loop. simpl.
  rewrite Rplus_0_l. by destruct (existsb _ _).
Qed.

End weights.

(** With nobody in range the weight is 0, helper methods or not. *)
Lemma get_direction_weight_nobody cls traci tls_id self d :
  detect_vehicles traci tls_id = [] ->
  get_direction_weight cls traci tls_id self d = Ok 0.
Proof.
  intros Hnil. unfold get_direction_weight. rewrite Hnil. simpl.
  f_equal. lra.
Qed.

(** Without [get_approach_direction] the first vehicle in range stops
    the computation. *)
Lemma get_direction_weight_undefined cls traci tls_id self d v l :
  get_approach_direction cls = None ->
  detect_vehicles traci tls_id = v :: l ->
  get_direction_weight cls traci tls_id self d
  = Raise (AttributeError "get_approach_direction").
Proof.
  intros Hnone Hdet. unfold get_direction_weight. rewrite Hdet. simpl.
  by rewrite Hnone.
Qed.

(** The tick of the class as written: it only completes when nothing
    is detected. *)
Lemma control_logic_as_written traci tls_id self :
  control_logic AdaptiveTrafficLight traci tls_id self =
    match detect_vehicles traci tls_id with
    | [] => Ok (tt, self)
    | _ :: _ =>
        Raise (AttributeError
                 (if existsb (is_emergency traci) (detect_vehicles traci tls_id)
                  then "handle_emergency" else "get_approach_direction"))
    end.
Proof.
  unfold control_logic.
  destruct (detect_vehicles traci tls_id) as [|v l] eqn:Hdet.
  - simpl. rewrite !get_direction_weight_nobody by done. simpl.
    rewrite decide_False by lra. done.
  - destruct (List.find _ _) as [e|] eqn:Hfind.
    + destruct (existsb _ _) eqn:Hex; [done|].
      apply find_none_existsb in Hex. congruence.
    + apply find_none_existsb in Hfind. rewrite Hfind.
      rewrite (get_direction_weight_undefined _ _ _ _ NS v l) by done.
      reflexivity.
Qed.

(** C10. In the class as the source defines it the four helper methods
    are absent.  Hence a tick that detects at least one vehicle ends in
    an attribute-lookup error (for [handle_emergency] when an emergency
    vehicle is in range, for [get_approach_direction] otherwise), a
    direction weight is only returned (as 0) when nothing is detected,
    and the tick completes, without any decision, exactly when the
    detected set is empty; recording a crossing fails the same way. *)
Theorem undefined_helpers_abort_tick traci tls_id self :
  control_logic AdaptiveTrafficLight traci tls_id self =
    match detect_vehicles traci tls_id with
    | [] => Ok (tt, self)
    | _ :: _ =>
        Raise (AttributeError
                 (if existsb (is_emergency traci) (detect_vehicles traci tls_id)
                  then "handle_emergency" else "get_approach_direction"))
    end
  /\ (forall d,
        get_direction_weight AdaptiveTrafficLight traci tls_id self d =
          match detect_vehicles traci tls_id with
          | [] => Ok 0
          | _ :: _ => Raise (AttributeError "get_approach_direction")
          end)
  /\ (forall veh_id,
        update_vehicle_history AdaptiveTrafficLight traci veh_id self =
          Raise (AttributeError "get_approach_direction")).
Proof.
  split; [apply control_logic_as_written|split].
  - intros d. destruct (detect_vehicles traci tls_id) as [|v l] eqn:Hdet.
    + by apply get_direction_weight_nobody.
    + by eapply get_direction_weight_undefined.
  - intros veh_id. reflexivity.
Qed.

(** ** The history store *)

Lemma _detect_patterns_spec veh_id self hist :
  vehicles self !! veh_id = Some hist ->
  crossings hist <> [] ->
  _detect_patterns veh_id self =
    Ok (tt, set_vehicles
              (<[veh_id :=
                   {| crossings := crossings hist;
                      patterns :=
                        Some (map pattern_of
                                  (clusters (map fst (crossings hist)))) |}]>
                 (vehicles self))
              self).
Proof.
  intros Hhist Hne. unfold _detect_patterns, mbind, M_bind, get_self. simpl.
  rewrite Hhist. by destruct (crossings hist).
Qed.

Lemma _detect_patterns_missing veh_id self :
  vehicles self !! veh_id = None ->
  _detect_patterns veh_id self = Raise (KeyError veh_id).
Proof.
  intros Hnone. unfold _detect_patterns, mbind, M_bind, get_self. simpl.
  by rewrite Hnone.
Qed.

Lemma _detect_patterns_no_samples veh_id self hist :
  vehicles self !! veh_id = Some hist ->
  crossings hist = [] ->
  _detect_patterns veh_id self = Raise ValueError.
Proof.
  intros Hhist Hnil. unfold _detect_patterns, mbind, M_bind, get_self. simpl.
  by rewrite Hhist, Hnil.
Qed.

Lemma update_vehicle_history_spec cls traci veh_id self approach :
  get_approach_direction cls = Some approach ->
  let hist := default {| crossings := []; patterns := None |}
                      (vehicles self !! veh_id) in
  let crossings' := crossings hist ++ [(getTime traci, approach veh_id)] in
  update_vehicle_history cls traci veh_id self =
    Ok (tt, set_vehicles
              (<[veh_id :=
                   {| crossings := crossings';
                      patterns :=
                        if decide (length crossings' mod 5 = 0)%nat
                        then Some (map pattern_of (clusters (map fst crossings')))
                        else patterns hist |}]> (vehicles self))
              self).
Proof.
  intros Happroach hist crossings'.
  unfold update_vehicle_history, mbind, M_bind, lift, get_self, put_self.
  rewrite Happroach. simpl. fold hist. fold crossings'.
  case_decide as Hmod.
  - erewrite _detect_patterns_spec;
      [|cbn [vehicles set_vehicles]; apply lookup_insert_eq
       |cbn [crossings]; unfold crossings'; by destruct (crossings hist)].
    unfold set_vehicles. cbn [vehicles emergency_log issued crossings].
    by rewrite insert_insert_eq.
  - done.
Qed.

Lemma update_vehicle_history_undefined cls traci veh_id self :
  get_approach_direction cls = None ->
  update_vehicle_history cls traci veh_id self
  = Raise (AttributeError "get_approach_direction").
Proof.
  intros Hnone.
  unfold update_vehicle_history, mbind, M_bind, lift. by rewrite Hnone.
Qed.

Lemma sqrt_nonneg (x : R) : 0 <= sqrt x.
Proof.
  destruct (Rle_dec 0 x) as [Hx|Hx]; [by apply sqrt_pos|].
  rewrite sqrt_neg_0 by lra. lra.
Qed.

Lemma pattern_of_consistency_pos (cluster : list R) :
  0 < consistency (pattern_of cluster).
Proof.
  simpl. unfold np_std. apply Rdiv_lt_0_compat; [lra|].
  pose proof (sqrt_nonneg
                (np_mean (map (fun x => (x - np_mean cluster) ^ 2) cluster))).
  lra.
Qed.

Lemma store_ok_mono (t t' : R) vs : t <= t' -> store_ok t vs -> store_ok t' vs.
Proof.
  intros Hle Hok veh_id hist Hhist. destruct (Hok _ _ Hhist) as [Hc Hp].
  split; [|done].
  eapply Forall_impl; [exact Hc|]. simpl. intros c Hc'. lra.
Qed.

Lemma store_ok_update cls traci veh_id self self' t :
  store_ok t (vehicles self) -> t <= getTime traci ->
  update_vehicle_history cls traci veh_id self = Ok (tt, self') ->
  store_ok (getTime traci) (vehicles self').
Proof.
  intros Hok Hle Hrun.
  destruct (get_approach_direction cls) as [approach|] eqn:Happroach;
    [|by rewrite update_vehicle_history_undefined in Hrun].
  rewrite (update_vehicle_history_spec _ _ _ _ approach) in Hrun by done.
  injection Hrun as <-. simpl.
  apply (store_ok_mono _ _ _ Hle) in Hok.
  intros v hist. destruct (decide (veh_id = v)) as [->|Hne].
  - rewrite lookup_insert_eq. intros [= <-]. simpl.
    assert (Hold : Forall (fun c : R * direction => c.1 <= getTime traci)
                     (crossings (default {| crossings := []; patterns := None |}
                                         (vehicles self !! v)))
                   /\ forall pats,
                        patterns (default {| crossings := []; patterns := None |}
                                          (vehicles self !! v)) = Some pats ->
                        Forall (fun p => 0 < consistency p) pats).
    { destruct (vehicles self !! v) as [old|] eqn:Hold; simpl.
      - exact (Hok _ _ Hold).
      - split; [constructor|discriminate]. }
    destruct Hold as [Hc Hp]. split.
    + apply Forall_app. split; [done|]. apply Forall_singleton. simpl. lra.
    + intros pats. case_decide; [|apply Hp].
      intros [= <-]. apply Forall_map, Forall_forall. intros c _.
      apply pattern_of_consistency_pos.
  - rewrite lookup_insert_ne by done. apply Hok.
Qed.

Lemma reachable_store_ok cls tls_id t self :
  reachable cls tls_id t self -> store_ok t (vehicles self).
Proof.
  induction 1 as [t|t self traci c self' _ IH Hle Hrun].
  - intros v hist. simpl. by rewrite lookup_empty.
  - destruct c as [veh_id|]; simpl in Hrun.
    + by eapply store_ok_update.
    + rewrite (control_logic_store _ _ _ _ _ Hrun).
      by eapply store_ok_mono.
Qed.

(** ** The priority score *)

Lemma ln_nonneg (x : R) : 1 <= x -> 0 <= ln x.
Proof.
  intros [Hlt| <-].
  - rewrite <- ln_1. left. apply ln_increasing; lra.
  - rewrite ln_1. lra.
Qed.

Lemma fold_left_Rmax_is_max (l : list R) (x : R) :
  is_max (fold_left Rmax l x) (x :: l).
Proof.
  revert x. induction l as [|y l IH]; intros x; simpl.
  - split; [by left|]. intros z Hz. apply list_elem_of_singleton in Hz. lra.
  - destruct (IH (Rmax x y)) as [Hin Hub]. split.
    + apply elem_of_cons in Hin as [Hin|Hin]; [|by do 2 right].
      rewrite Hin. unfold Rmax.
      destruct (Rle_dec x y); [right|]; by left.
    + intros z Hz.
      assert (Rmax x y <= fold_left Rmax l (Rmax x y)) by (apply Hub; by left).
      pose proof (Rmax_l x y). pose proof (Rmax_r x y).
      apply elem_of_cons in Hz as [->|Hz]; [lra|].
      apply elem_of_cons in Hz as [->|Hz]; [lra|].
      apply Hub. by right.
Qed.

Lemma fold_left_Rmin_is_min (l : list R) (x : R) :
  is_min (fold_left Rmin l x) (x :: l).
Proof.
  revert x. induction l as [|y l IH]; intros x; simpl.
  - split; [by left|]. intros z Hz. apply list_elem_of_singleton in Hz. lra.
  - destruct (IH (Rmin x y)) as [Hin Hlb]. split.
    + apply elem_of_cons in Hin as [Hin|Hin]; [|by do 2 right].
      rewrite Hin. unfold Rmin.
      destruct (Rle_dec x y); [|right]; by left.
    + intros z Hz.
      assert (fold_left Rmin l (Rmin x y) <= Rmin x y) by (apply Hlb; by left).
      pose proof (Rmin_l x y). pose proof (Rmin_r x y).
      apply elem_of_cons in Hz as [->|Hz]; [lra|].
      apply elem_of_cons in Hz as [->|Hz]; [lra|].
      apply Hlb. by right.
Qed.

Lemma py_max_is_max (l : list R) : l <> [] -> is_max (py_max l) l.
Proof. destruct l; [done|]. intros _. apply fold_left_Rmax_is_max. Qed.

Lemma py_min_is_min (l : list R) : l <> [] -> is_min (py_min l) l.
Proof. destruct l; [done|]. intros _. apply fold_left_Rmin_is_min. Qed.

(** The consistency term in the words of the specification. *)
Lemma consistency_term_spec (now : R) (hist : VehicleRecord) :
  match patterns hist with
  | Some (p :: ps) =>
      exists hi lo,
        is_max hi (map consistency (p :: ps))
        /\ is_min lo (map (fun q => Rabs (now - peak_start q)) (p :: ps))
        /\ consistency_term now hist = hi / (1 + lo)
  | _ => consistency_term now hist = 0.5
  end.
Proof.
  unfold consistency_term. destruct (patterns hist) as [[|p ps]|]; try done.
  eexists _, _. split; [|split; [|reflexivity]].
  - by apply py_max_is_max.
  - by apply py_min_is_min.
Qed.

Lemma consistency_term_pos (now : R) (hist : VehicleRecord) :
  (forall pats, patterns hist = Some pats ->
     Forall (fun p => 0 < consistency p) pats) ->
  0 < consistency_term now hist.
Proof.
  intros Hpos. pose proof (consistency_term_spec now hist) as Hspec.
  destruct (patterns hist) as [[|p ps]|] eqn:Hp; try (rewrite Hspec; lra).
  destruct Hspec as (hi & lo & [Hhi _] & [Hlo _] & ->).
  apply Rdiv_lt_0_compat.
  - apply list_elem_of_fmap in Hhi as (q & -> & Hq).
    specialize (Hpos _ eq_refl). rewrite Forall_forall in Hpos. by apply Hpos.
  - apply list_elem_of_fmap in Hlo as (q & -> & Hq).
    pose proof (Rabs_pos (now - peak_start q)). lra.
Qed.

Lemma last_Forall {A} (P : A -> Prop) (l : list A) (x : A) :
  Forall P l -> last l = Some x -> P x.
Proof.
  intros Hl Hlast. rewrite Forall_forall in Hl. apply Hl.
  rewrite last_Some in Hlast. destruct Hlast as [l' ->].
  apply elem_of_app. right. by left.
Qed.

(** On a store that satisfies the invariant the priority is computed
    without error and is not negative. *)
Lemma calculate_priority_ok traci self veh_id t :
  store_ok t (vehicles self) -> t <= getTime traci ->
  exists p, calculate_priority traci self veh_id = Ok p /\ 0 <= p.
Proof.
  intros Hok Hle. unfold calculate_priority.
  destruct (vehicles self !! veh_id) as [hist|] eqn:Hhist;
    [|exists 0; split; [done|lra]].
  destruct (Hok _ _ Hhist) as [Hc Hp].
  destruct (last (crossings hist)) as [[last_time d]|] eqn:Hlast;
    [|exists 0; split; [done|lra]].
  pose proof (last_Forall _ _ _ Hc Hlast) as Hlt. simpl in Hlt.
  rewrite recency_term_Ok by lra. simpl. eexists. split; [done|].
  pose proof (ln_nonneg (1 + INR (length (crossings hist)))) as Hln.
  pose proof (pos_INR (length (crossings hist))).
  pose proof (inv_ge_1 (1 + (getTime traci - last_time) / 3600)).
  pose proof (consistency_term_pos (getTime traci) hist Hp).
  unfold weights_frequency, weights_recency, weights_consistency.
  assert (0 <= ln (1 + INR (length (crossings hist)))) by (apply Hln; lra).
  assert (0 < 1 / (1 + (getTime traci - last_time) / 3600)) by (apply H0; lra).
  nra.
Qed.

Lemma priority_value_ok traci self veh_id t :
  store_ok t (vehicles self) -> t <= getTime traci ->
  calculate_priority traci self veh_id = Ok (priority_value traci self veh_id)
  /\ 0 <= priority_value traci self veh_id.
Proof.
  intros Hok Hle.
  destruct (calculate_priority_ok traci self veh_id t Hok Hle) as (p & Hp & Hp0).
  unfold priority_value. by rewrite Hp.
Qed.

(** C5. For an engine state reached by normal calls and a clock that has
    not run backwards, [calculate_priority] returns a number [p >= 0] for
    every vehicle id: [p = 0] when the vehicle has no recorded crossing;
    otherwise [p = 0.4 * ln (1 + n) + 0.3 * recency + 0.3 * c] with [n]
    the crossing count, [recency = 1 / (1 + (now - last) / 3600)], and
    [c] the largest pattern consistency divided by one plus the smallest
    [|now - peak_start|] when the vehicle has patterns, 0.5 when it has
    none. *)
Theorem priority_formula_nonneg cls tls_id t self traci veh_id :
  reachable cls tls_id t self -> t <= getTime traci ->
  exists p,
    calculate_priority traci self veh_id = Ok p
    /\ 0 <= p
    /\ match vehicles self !! veh_id with
       | None => p = 0
       | Some hist =>
           match last (crossings hist) with
           | None => p = 0
           | Some (last_time, _) =>
               exists c,
                 p = 0.4 * ln (1 + INR (length (crossings hist)))
                     + 0.3 * (1 / (1 + (getTime traci - last_time) / 3600))
                     + 0.3 * c
                 /\ match patterns hist with
                    | Some (q :: qs) =>
                        exists hi lo,
                          is_max hi (map consistency (q :: qs))
                          /\ is_min lo (map (fun q => Rabs (getTime traci
                                                            - peak_start q))
                                            (q :: qs))
                          /\ c = hi / (1 + lo)
                    | _ => c = 0.5
                    end
           end
       end.
Proof.
  intros Hreach Hle. apply reachable_store_ok in Hreach as Hok.
  destruct (calculate_priority_ok traci self veh_id t Hok Hle) as (p & Hp & Hp0).
  exists p. split; [done|]. split; [done|].
  unfold calculate_priority in Hp.
  destruct (vehicles self !! veh_id) as [hist|] eqn:Hhist; [|congruence].
  destruct (Hok _ _ Hhist) as [Hc _].
  destruct (last (crossings hist)) as [[last_time d]|] eqn:Hlast; [|congruence].
  pose proof (last_Forall _ _ _ Hc Hlast) as Hlt. simpl in Hlt.
  rewrite recency_term_Ok in Hp by lra. simpl in Hp. injection Hp as <-.
  exists (consistency_term (getTime traci) hist). split; [done|].
  pose proof (consistency_term_spec (getTime traci) hist) as Hspec.
  by destruct (patterns hist) as [[|q qs]|].
Qed.

(** ** Weights of reachable states and the phase decision *)

Lemma Rsum_nonneg (l : list R) : Forall (fun x => 0 <= x) l -> 0 <= Rsum l.
Proof. induction 1; simpl; lra. Qed.

Lemma priorities_ok traci self t (l : list string) :
  store_ok t (vehicles self) -> t <= getTime traci ->
  Forall (fun v => is_Ok (calculate_priority traci self v)) l.
Proof.
  intros Hok Hle. apply Forall_forall. intros v _.
  destruct (calculate_priority_ok traci self v t Hok Hle) as (p & Hp & _).
  by exists p.
Qed.

Lemma get_direction_weight_ok cls traci tls_id self t approach d :
  store_ok t (vehicles self) -> t <= getTime traci ->
  get_approach_direction cls = Some approach ->
  exists w, get_direction_weight cls traci tls_id self d = Ok w /\ 0 <= w.
Proof.
  intros Hok Hle Happroach.
  rewrite (get_direction_weight_closed cls traci tls_id self approach Happroach)
    by by eapply priorities_ok.
  simpl. eexists. split; [done|].
  set (approaching := filter _ _).
  assert (0 <= Rsum (map (priority_value traci self) approaching)).
  { apply Rsum_nonneg, Forall_map, Forall_forall. intros v _.
    by apply (priority_value_ok traci self v t). }
  pose proof (pos_INR (length approaching)).
  unfold density_weight, time_boost_factor.
  destruct (existsb _ _); nra.
Qed.

(** The truthiness test of the boost finds a vehicle exactly when some
    in-range vehicle has a stored, non-empty pattern list. *)
Lemma existsb_has_patterns (self : Engine) (l : list string) :
  existsb (has_patterns self) l = true <-> some_pattern_in_range self l.
Proof.
  rewrite existsb_exists. unfold some_pattern_in_range, has_patterns. split.
  - intros (v & Hv%list_elem_of_In & Hp).
    destruct (vehicles self !! v) as [hist|] eqn:Hh; [|done].
    destruct (patterns hist) as [[|p ps]|] eqn:Hps; try done.
    by exists v, hist, p, ps.
  - intros (v & hist & p & ps & Hv & Hh & Hps). exists v.
    split; [by apply list_elem_of_In|]. by rewrite Hh, Hps.
Qed.

(** C6. For a reachable engine state, a clock that has not run backwards
    and a class that supplies the approach direction, the weight of
    direction [d] is the sum of the priorities of the in-range vehicles
    approaching in [d] plus 0.3 for each of them, times 1.5 when some
    in-range vehicle (of any direction) has a non-empty stored pattern
    list and unchanged when none has; it is never negative, and it is 0
    when no vehicle is in range. *)
Theorem direction_weight_formula cls tls_id t self traci approach d :
  reachable cls tls_id t self -> t <= getTime traci ->
  get_approach_direction cls = Some approach ->
  let in_range := detect_vehicles traci tls_id in
  let approaching := filter (fun v => approach v = d) in_range in
  let base := Rsum (map (priority_value traci self) approaching)
              + 0.3 * INR (length approaching) in
  exists w,
    get_direction_weight cls traci tls_id self d = Ok w
    /\ Forall (fun v => calculate_priority traci self v
                        = Ok (priority_value traci self v)) in_range
    /\ (some_pattern_in_range self in_range -> w = base * 1.5)
    /\ (~ some_pattern_in_range self in_range -> w = base)
    /\ 0 <= w
    /\ (in_range = [] -> w = 0).
Proof.
  intros Hreach Hle Happroach in_range approaching base.
  apply reachable_store_ok in Hreach as Hok.
  destruct (get_direction_weight_ok cls traci tls_id self t approach d
              Hok Hle Happroach) as (w & Hw & Hw0).
  assert (Hformula : w = if existsb (has_patterns self) in_range
                         then base * 1.5 else base).
  { rewrite (get_direction_weight_closed cls traci tls_id self approach Happroach)
      in Hw by by eapply priorities_ok.
    simpl in Hw. injection Hw as <-.
    unfold base, approaching, in_range, density_weight, time_boost_factor.
    destruct (existsb _ _); lra. }
  exists w. split; [done|]. split; [|split; [|split; [|split; [done|]]]].
  - apply Forall_forall. intros v _.
    by apply (priority_value_ok traci self v t).
  - intros Hsome%existsb_has_patterns. by rewrite Hsome in Hformula.
  - intros Hnone. destruct (existsb (has_patterns self) in_range) eqn:Hex;
      [|done].
    destruct Hnone. by apply existsb_has_patterns.
  - intros Hnil. rewrite get_direction_weight_nobody in Hw by done.
    by injection Hw as <-.
Qed.

(** C4 (as amended). On a tick without an emergency vehicle (reachable
    state, clock not run backwards, approach directions available) both
    weights are computed and neither is negative.  When their sum is
    zero the tick returns normally with the engine unchanged: no
    decision is issued and no division is attempted.  Otherwise the sum
    is positive, each normalised weight lies in [0, 1], each direction's
    duration is [clamp (30 * (0.5 + weight / total)) 15 60], a value in
    [15, 60], and the tick decides with these durations: on a tracked
    phase with less time left than its duration it sends the difference
    [duration - remaining], on a tracked phase with enough time left it
    sends nothing, on a transition phase it switches.  The value sent is
    therefore an extension and not a duration: it is positive, at most
    60 when the remaining time is not negative, and it can lie below
    15. *)
Theorem zero_total_silent_else_bounded cls tls_id t self traci approach :
  reachable cls tls_id t self -> t <= getTime traci ->
  get_approach_direction cls = Some approach ->
  List.find (is_emergency traci) (detect_vehicles traci tls_id) = None ->
  exists w_NS w_EW,
    get_direction_weight cls traci tls_id self NS = Ok w_NS
    /\ get_direction_weight cls traci tls_id self EW = Ok w_EW
    /\ 0 <= w_NS /\ 0 <= w_EW
    /\ (w_NS + w_EW = 0 ->
        control_logic cls traci tls_id self = Ok (tt, self))
    /\ (w_NS + w_EW <> 0 ->
        exists d_NS d_EW,
          0 < w_NS + w_EW
          /\ 0 <= w_NS / (w_NS + w_EW) <= 1
          /\ 0 <= w_EW / (w_NS + w_EW) <= 1
          /\ phase_duration w_NS (w_NS + w_EW) = Ok d_NS
          /\ phase_duration w_EW (w_NS + w_EW) = Ok d_EW
          /\ d_NS = clamp (30 * (0.5 + w_NS / (w_NS + w_EW))) 15 60
          /\ d_EW = clamp (30 * (0.5 + w_EW / (w_NS + w_EW))) 15 60
          /\ 15 <= d_NS <= 60
          /\ 15 <= d_EW <= 60
          /\ control_logic cls traci tls_id self
             = (current ← getattr "get_current_direction"
                                  (get_current_direction cls);
                match current (getPhase traci tls_id) with
                | Some d =>
                    let duration := match d with NS => d_NS | EW => d_EW end in
                    let remaining :=
                      getNextSwitch traci tls_id - getTime traci in
                    Ok (tt, issue (if decide (remaining < duration)
                                   then [SetPhaseDuration tls_id
                                           (duration - remaining)]
                                   else []) self)
                | None =>
                    switch ← getattr "set_phase_for_direction"
                                     (set_phase_for_direction cls);
                    Ok (tt, issue (switch (if decide (w_NS < w_EW)
                                           then EW else NS)) self)
                end)
          /\ forall (d : direction) (remaining : R),
               let duration := match d with NS => d_NS | EW => d_EW end in
               remaining < duration ->
               0 < duration - remaining
               /\ (0 <= remaining -> duration - remaining <= 60)).
Proof.
  intros Hreach Hle Happroach Hfind.
  apply reachable_store_ok in Hreach as Hok.
  destruct (get_direction_weight_ok cls traci tls_id self t approach NS
              Hok Hle Happroach) as (w_NS & HNS & HNS0).
  destruct (get_direction_weight_ok cls traci tls_id self t approach EW
              Hok Hle Happroach) as (w_EW & HEW & HEW0).
  exists w_NS, w_EW. split; [done|]. split; [done|].
  split; [done|]. split; [done|]. split.
  - intros Hzero.
    rewrite (control_logic_scored _ _ _ _ w_NS w_EW) by done.
    rewrite decide_False by lra. done.
  - intros Hnz. assert (Hpos : 0 < w_NS + w_EW) by lra.
    pose proof (clamp_bounds (30 * (0.5 + w_NS / (w_NS + w_EW)))) as HbNS.
    pose proof (clamp_bounds (30 * (0.5 + w_EW / (w_NS + w_EW)))) as HbEW.
    exists (clamp (30 * (0.5 + w_NS / (w_NS + w_EW))) 15 60),
           (clamp (30 * (0.5 + w_EW / (w_NS + w_EW))) 15 60).
    split; [done|].
    split; [apply div_unit; lra|]. split; [apply div_unit; lra|].
    split; [apply phase_duration_Ok; lra|].
    split; [apply phase_duration_Ok; lra|].
    split; [done|]. split; [done|]. split; [done|]. split; [done|]. split.
    + rewrite (control_logic_scored _ _ _ _ w_NS w_EW) by done.
      rewrite decide_True by done.
      destruct (get_current_direction cls) as [current|]; simpl; [|done].
      by destruct (current (getPhase traci tls_id)) as [[|]|].
    + intros d remaining duration Hlt. unfold duration in *.
      destruct d; split; lra.
Qed.

Lemma phase_decision_code_extends tls_id w_NS w_EW d_NS d_EW d remaining
    switch tls seconds :
  SetPhaseDuration tls seconds
    ∈ phase_decision_code tls_id w_NS w_EW d_NS d_EW (Some d) remaining switch ->
  0 < seconds
  /\ seconds = (match d with NS => d_NS | EW => d_EW end) - remaining.
Proof.
  unfold phase_decision_code. case_decide as Hlt.
  - intros [= _ ->]%list_elem_of_singleton. split; [lra|done].
  - by intros ?%elem_of_nil.
Qed.

(** C2 (as amended). On a tick without an emergency vehicle whose total
    weight is positive: when the current phase belongs to a tracked
    direction and less time remains than that direction's new duration,
    the engine extends the phase by exactly the difference, a positive
    amount; when the current phase belongs to a tracked direction and
    the remaining time already reaches the duration, the engine issues
    nothing; when the current phase is a transition phase, the engine
    switches to the direction with the higher weight, NS on a tie. *)
Theorem extend_or_keep_or_switch cls traci tls_id self w_NS w_EW current switch :
  List.find (is_emergency traci) (detect_vehicles traci tls_id) = None ->
  get_direction_weight cls traci tls_id self NS = Ok w_NS ->
  get_direction_weight cls traci tls_id self EW = Ok w_EW ->
  0 < w_NS + w_EW ->
  get_current_direction cls = Some current ->
  set_phase_for_direction cls = Some switch ->
  let d_NS := clamp (30 * (0.5 + w_NS / (w_NS + w_EW))) 15 60 in
  let d_EW := clamp (30 * (0.5 + w_EW / (w_NS + w_EW))) 15 60 in
  let remaining := getNextSwitch traci tls_id - getTime traci in
  control_logic cls traci tls_id self =
    Ok (tt, issue (phase_decision_code tls_id w_NS w_EW d_NS d_EW
                     (current (getPhase traci tls_id)) remaining switch)
                  self)
  /\ forall d tls seconds,
       current (getPhase traci tls_id) = Some d ->
       SetPhaseDuration tls seconds
         ∈ phase_decision_code tls_id w_NS w_EW d_NS d_EW (Some d) remaining
                               switch ->
       0 < seconds.
Proof.
  intros Hfind HNS HEW Hpos Hcurrent Hswitch d_NS d_EW remaining. split.
  - rewrite (control_logic_scored _ _ _ _ w_NS w_EW) by done.
    rewrite decide_True by done. rewrite Hcurrent, Hswitch. simpl.
    unfold phase_decision_code.
    destruct (current (getPhase traci tls_id)) as [[|]|]; done.
  - intros d tls seconds _ Hin.
    by apply phase_decision_code_extends in Hin as [? _].
Qed.

(** ** Sample ticks on a fresh engine *)

Lemma calculate_priority_init traci veh_id :
  calculate_priority traci init veh_id = Ok 0.
Proof. unfold calculate_priority. simpl. by rewrite lookup_empty. Qed.

Lemma priorities_init traci (l : list string) :
  Rsum (map (priority_value traci init) l) = 0.
Proof.
  induction l as [|v l IH]; simpl; [done|].
  rewrite IH. unfold priority_value. rewrite calculate_priority_init. lra.
Qed.

Lemma no_patterns_init (l : list string) :
  existsb (has_patterns init) l = false.
Proof.
  induction l as [|v l IH]; simpl; [done|].
  rewrite IH. unfold has_patterns. simpl. by rewrite lookup_empty.
Qed.

Lemma get_direction_weight_init cls traci tls_id approach d :
  get_approach_direction cls = Some approach ->
  get_direction_weight cls traci tls_id init d
  = Ok (0.3 * INR (length (filter (fun v => approach v = d)
                                  (detect_vehicles traci tls_id)))).
Proof.
  intros Happroach.
  rewrite (get_direction_weight_closed cls traci tls_id init approach Happroach).
  - simpl. rewrite priorities_init, no_patterns_init.
    unfold density_weight. f_equal. lra.
  - apply Forall_forall. intros v _. exists 0. apply calculate_priority_init.
Qed.

Lemma find_emergency_passengers vehs now phase next_switch tls_id :
  List.find (is_emergency (tick vehs passenger now phase next_switch))
            (detect_vehicles (tick vehs passenger now phase next_switch) tls_id)
  = None.
Proof.
  rewrite detect_vehicles_tick. by induction vehs as [|v vehs IH].
Qed.

Lemma sample_weight vehs now phase next_switch d (n : nat) (w : R) :
  length (filter (fun v => (if String.prefix "e" v then EW else NS) = d) vehs)
  = n ->
  0.3 * INR n = w ->
  get_direction_weight (host "J1") (tick vehs passenger now phase next_switch)
                       "J1" init d = Ok w.
Proof.
  intros Hn Hw. erewrite get_direction_weight_init by reflexivity.
  rewrite detect_vehicles_tick, Hn. by rewrite Hw.
Qed.

(** Scenario D of the specification: NS is active with 10 s left and the
    new NS duration is 25 s, so the phase is extended by 15 s. *)
Lemma scenario_D_extends_by_15 :
  control_logic (host "J1") (tick ["n1"; "e1"; "e2"]%string passenger 100 0 110)
                "J1" init
  = Ok (tt, issue [SetPhaseDuration "J1" 15] init).
Proof.
  rewrite (control_logic_scored _ _ _ _ 0.3 0.6).
  - rewrite decide_True by lra. simpl.
    assert (Hd : clamp (30 * (0.5 + 0.3 / (0.3 + 0.6))) 15 60 = 25).
    { replace (30 * (0.5 + 0.3 / (0.3 + 0.6))) with 25 by lra.
      unfold clamp, Rmax, Rmin.
      destruct (Rle_dec 60 25); destruct (Rle_dec 15 _); lra. }
    rewrite Hd. rewrite decide_True by lra.
    by replace (25 - (110 - 100)) with 15 by lra.
  - apply find_emergency_passengers.
  - apply (sample_weight _ _ _ _ _ 1%nat); [reflexivity|simpl; lra].
  - apply (sample_weight _ _ _ _ _ 2%nat); [reflexivity|simpl; lra].
Qed.

(** Scenario B of the specification, on a fresh engine: a single NS
    vehicle gets the whole normalised weight and the duration 45 s. *)
Lemma scenario_B_duration_45 :
  phase_duration 0.3 (0.3 + 0) = Ok 45.
Proof.
  rewrite phase_duration_Ok by lra.
  replace (30 * (0.5 + 0.3 / (0.3 + 0))) with 45 by lra.
  f_equal. unfold clamp, Rmax, Rmin.
  destruct (Rle_dec 60 45); destruct (Rle_dec 15 _); lra.
Qed.

Lemma extend_or_keep_or_switch_witness :
  let traci := tick ["n1"; "e1"; "e2"]%string passenger 100 0 110 in
  List.find (is_emergency traci) (detect_vehicles traci "J1") = None
  /\ get_direction_weight (host "J1") traci "J1" init NS = Ok 0.3
  /\ get_direction_weight (host "J1") traci "J1" init EW = Ok 0.6
  /\ 0 < 0.3 + 0.6
  /\ control_logic (host "J1") traci "J1" init =
       Ok (tt, issue (phase_decision_code "J1" 0.3 0.6
                        (clamp (30 * (0.5 + 0.3 / (0.3 + 0.6))) 15 60)
                        (clamp (30 * (0.5 + 0.6 / (0.3 + 0.6))) 15 60)
                        (Some NS) (110 - 100)
                        (set_phase_for_direction_spec "J1"))
                     init).
Proof.
  intros traci.
  assert (Hfind : List.find (is_emergency traci) (detect_vehicles traci "J1")
                  = None) by apply find_emergency_passengers.
  assert (HNS : get_direction_weight (host "J1") traci "J1" init NS = Ok 0.3)
    by (apply (sample_weight _ _ _ _ _ 1%nat); [reflexivity|simpl; lra]).
  assert (HEW : get_direction_weight (host "J1") traci "J1" init EW = Ok 0.6)
    by (apply (sample_weight _ _ _ _ _ 2%nat); [reflexivity|simpl; lra]).
  assert (Hpos : 0 < 0.3 + 0.6) by lra.
  repeat split; try done.
  exact (proj1 (extend_or_keep_or_switch (host "J1") traci "J1" init 0.3 0.6
                  _ _ Hfind HNS HEW Hpos eq_refl eq_refl)).
Defined.

(** C2 (as claimed) fails: NS is active with 50 s left, which exceeds
    its new duration, and EW has the higher weight; the claim wants a
    switch to EW, the engine issues nothing. *)
Lemma tracked_phase_long_enough_is_kept :
  let traci := tick ["e1"%string] passenger 100 0 150 in
  List.find (is_emergency traci) (detect_vehicles traci "J1") = None
  /\ get_direction_weight (host "J1") traci "J1" init NS = Ok 0
  /\ get_direction_weight (host "J1") traci "J1" init EW = Ok 0.3
  /\ 0 < 0 + 0.3
  /\ phase_decision_spec "J1" 0 0.3
       (clamp (30 * (0.5 + 0 / (0 + 0.3))) 15 60)
       (clamp (30 * (0.5 + 0.3 / (0 + 0.3))) 15 60)
       (Some NS) (150 - 100) (set_phase_for_direction_spec "J1")
     = [SwitchToPhaseForDirection "J1" EW]
  /\ control_logic (host "J1") traci "J1" init = Ok (tt, init)
  /\ control_logic (host "J1") traci "J1" init <>
       Ok (tt, issue (phase_decision_spec "J1" 0 0.3
                        (clamp (30 * (0.5 + 0 / (0 + 0.3))) 15 60)
                        (clamp (30 * (0.5 + 0.3 / (0 + 0.3))) 15 60)
                        (Some NS) (150 - 100)
                        (set_phase_for_direction_spec "J1"))
                     init).
Proof.
  intros traci.
  assert (Hfind : List.find (is_emergency traci) (detect_vehicles traci "J1")
                  = None) by apply find_emergency_passengers.
  assert (HNS : get_direction_weight (host "J1") traci "J1" init NS = Ok 0)
    by (apply (sample_weight _ _ _ _ _ 0%nat); [reflexivity|simpl; lra]).
  assert (HEW : get_direction_weight (host "J1") traci "J1" init EW = Ok 0.3)
    by (apply (sample_weight _ _ _ _ _ 1%nat); [reflexivity|simpl; lra]).
  assert (Hd : clamp (30 * (0.5 + 0 / (0 + 0.3))) 15 60 = 15).
  { replace (30 * (0.5 + 0 / (0 + 0.3))) with 15 by lra.
    unfold clamp, Rmax, Rmin.
    destruct (Rle_dec 60 15); destruct (Rle_dec 15 _); lra. }
  assert (Hspec : phase_decision_spec "J1" 0 0.3
       (clamp (30 * (0.5 + 0 / (0 + 0.3))) 15 60)
       (clamp (30 * (0.5 + 0.3 / (0 + 0.3))) 15 60)
       (Some NS) (150 - 100) (set_phase_for_direction_spec "J1")
     = [SwitchToPhaseForDirection "J1" EW]).
  { unfold phase_decision_spec. rewrite Hd.
    rewrite decide_False by lra. by rewrite decide_True by lra. }
  assert (Hrun : control_logic (host "J1") traci "J1" init = Ok (tt, init)).
  { rewrite (control_logic_scored _ _ _ _ 0 0.3) by done.
    rewrite decide_True by lra. simpl. rewrite Hd.
    rewrite decide_False by lra. by rewrite issue_nil. }
  repeat split; try done; try lra.
  rewrite Hrun, Hspec. intros [= Habs].
Qed.

(** ** Sample runs *)

Lemma sample_engine_reachable : reachable (host "J1") "J1" 100 sample_engine.
Proof.
  apply (reach_call (host "J1") "J1" 100 init
           (tick [] passenger 100 0 110) (CallUpdate "n1")).
  - apply reach_init.
  - simpl. lra.
  - simpl. erewrite update_vehicle_history_spec by reflexivity.
    simpl. by rewrite lookup_empty.
Qed.

Lemma priority_formula_nonneg_witness :
  let traci := tick ["n1"%string] passenger 3700 0 3710 in
  reachable (host "J1") "J1" 100 sample_engine
  /\ 100 <= getTime traci
  /\ exists p, calculate_priority traci sample_engine "n1" = Ok p /\ 0 <= p.
Proof.
  intros traci.
  assert (Hle : 100 <= getTime traci) by (simpl; lra).
  split; [apply sample_engine_reachable|]. split; [exact Hle|].
  destruct (priority_formula_nonneg (host "J1") "J1" 100 sample_engine traci
              "n1" sample_engine_reachable Hle) as (p & Hp & Hp0 & _).
  exists p. by split.
Defined.

Lemma zero_total_silent_else_bounded_witness :
  let traci := tick ["n1"; "e1"; "e2"]%string passenger 100 0 110 in
  reachable (host "J1") "J1" 100 init
  /\ 100 <= getTime traci
  /\ List.find (is_emergency traci) (detect_vehicles traci "J1") = None
  /\ get_direction_weight (host "J1") traci "J1" init NS = Ok 0.3
  /\ get_direction_weight (host "J1") traci "J1" init EW = Ok 0.6
  /\ phase_duration 0.3 (0.3 + 0.6) = Ok 25
  /\ phase_duration 0.6 (0.3 + 0.6) = Ok 35
  /\ control_logic (host "J1") traci "J1" init
     = Ok (tt, issue [SetPhaseDuration "J1" 15] init).
Proof.
  intros traci.
  assert (Hle : 100 <= getTime traci) by (simpl; lra).
  assert (Hfind : List.find (is_emergency traci) (detect_vehicles traci "J1")
                  = None) by apply find_emergency_passengers.
  assert (HNS : get_direction_weight (host "J1") traci "J1" init NS = Ok 0.3)
    by (apply (sample_weight _ _ _ _ _ 1%nat); [reflexivity|simpl; lra]).
  assert (HEW : get_direction_weight (host "J1") traci "J1" init EW = Ok 0.6)
    by (apply (sample_weight _ _ _ _ _ 2%nat); [reflexivity|simpl; lra]).
  assert (H25 : clamp (30 * (0.5 + 0.3 / (0.3 + 0.6))) 15 60 = 25).
  { replace (30 * (0.5 + 0.3 / (0.3 + 0.6))) with 25 by lra.
    unfold clamp, Rmax, Rmin.
    destruct (Rle_dec 60 25); destruct (Rle_dec 15 _); lra. }
  assert (H35 : clamp (30 * (0.5 + 0.6 / (0.3 + 0.6))) 15 60 = 35).
  { replace (30 * (0.5 + 0.6 / (0.3 + 0.6))) with 35 by lra.
    unfold clamp, Rmax, Rmin.
    destruct (Rle_dec 60 35); destruct (Rle_dec 15 _); lra. }
  destruct (zero_total_silent_else_bounded (host "J1") "J1" 100 init
              traci _ (reach_init _ _ 100) Hle eq_refl Hfind)
    as (w_NS & w_EW & HNS' & HEW' & _ & _ & _ & Hnz).
  rewrite HNS in HNS'. injection HNS' as <-.
  rewrite HEW in HEW'. injection HEW' as <-.
  destruct Hnz as (d_NS & d_EW & _ & _ & _ & HdNS & HdEW & HeNS & HeEW & _ & _
                   & Hrun & _); [lra|].
  rewrite H25 in HeNS. rewrite H35 in HeEW. subst d_NS d_EW.
  split; [apply reach_init|]. split; [exact Hle|]. split; [exact Hfind|].
  split; [exact HNS|]. split; [exact HEW|].
  split; [exact HdNS|]. split; [exact HdEW|].
  rewrite Hrun. simpl. rewrite decide_True by lra.
  by replace (25 - (110 - 100)) with 15 by lra.
Defined.

(** C4 (as claimed) fails: on a fresh engine completed with the
    helper methods, with one NS and two EW vehicles in range, NS active
    and 20 s left, the NS duration is 25 (within [15, 60]) and the tick
    sends the value 5, which is below 15. *)
Lemma emitted_extension_below_15 :
  let traci := tick ["n1"; "e1"; "e2"]%string passenger 100 0 120 in
  List.find (is_emergency traci) (detect_vehicles traci "J1") = None
  /\ get_direction_weight (host "J1") traci "J1" init NS = Ok 0.3
  /\ get_direction_weight (host "J1") traci "J1" init EW = Ok 0.6
  /\ 0.3 + 0.6 <> 0
  /\ phase_duration 0.3 (0.3 + 0.6) = Ok 25
  /\ control_logic (host "J1") traci "J1" init
     = Ok (tt, issue [SetPhaseDuration "J1" 5] init)
  /\ ~ (15 <= 5 <= 60).
Proof.
  intros traci.
  assert (Hfind : List.find (is_emergency traci) (detect_vehicles traci "J1")
                  = None) by apply find_emergency_passengers.
  assert (HNS : get_direction_weight (host "J1") traci "J1" init NS = Ok 0.3)
    by (apply (sample_weight _ _ _ _ _ 1%nat); [reflexivity|simpl; lra]).
  assert (HEW : get_direction_weight (host "J1") traci "J1" init EW = Ok 0.6)
    by (apply (sample_weight _ _ _ _ _ 2%nat); [reflexivity|simpl; lra]).
  assert (H25 : clamp (30 * (0.5 + 0.3 / (0.3 + 0.6))) 15 60 = 25).
  { replace (30 * (0.5 + 0.3 / (0.3 + 0.6))) with 25 by lra.
    unfold clamp, Rmax, Rmin.
    destruct (Rle_dec 60 25); destruct (Rle_dec 15 _); lra. }
  split; [exact Hfind|]. split; [exact HNS|]. split; [exact HEW|].
  split; [lra|]. split; [|split; [|lra]].
  - rewrite phase_duration_Ok by lra. by rewrite H25.
  - rewrite (control_logic_scored _ _ _ _ 0.3 0.6) by done.
    rewrite decide_True by lra. simpl. rewrite H25.
    rewrite decide_True by lra.
    by replace (25 - (120 - 100)) with 5 by lra.
Qed.

(** C1 (code defect).  A fresh engine completed with the helper methods
    processes a tick with the single vehicle ["n1"] in range: the tick
    computes the weights and extends the NS phase by 35 s, but the
    store still has no record for ["n1"]; [update_vehicle_history], the
    method that would append the crossing, is never called by
    [control_logic].  The class as written does not record the crossing
    either: its tick stops at the first missing helper. *)
Theorem tick_records_no_crossing :
  let traci := tick ["n1"%string] passenger 100 0 110 in
  detect_vehicles traci "J1" = ["n1"%string]
  /\ (exists self',
        control_logic (host "J1") traci "J1" init = Ok (tt, self')
        /\ issued self' = [SetPhaseDuration "J1" 35]
        /\ vehicles self' !! "n1"%string = None)
  /\ (exists self',
        update_vehicle_history (host "J1") traci "n1" init = Ok (tt, self')
        /\ vehicles self' !! "n1"%string
           = Some {| crossings := [(100, NS)]; patterns := None |})
  /\ control_logic AdaptiveTrafficLight traci "J1" init
     = Raise (AttributeError "get_approach_direction").
Proof.
  intros traci. split; [apply detect_vehicles_tick|]. split; [|split].
  - exists (issue [SetPhaseDuration "J1" 35] init). split; [|done].
    rewrite (control_logic_scored _ _ _ _ 0.3 0).
    + rewrite decide_True by lra. simpl.
      assert (Hd : clamp (30 * (0.5 + 0.3 / (0.3 + 0))) 15 60 = 45).
      { replace (30 * (0.5 + 0.3 / (0.3 + 0))) with 45 by lra.
        unfold clamp, Rmax, Rmin.
        destruct (Rle_dec 60 45); destruct (Rle_dec 15 _); lra. }
      rewrite Hd. rewrite decide_True by lra.
      by replace (45 - (110 - 100)) with 35 by lra.
    + apply find_emergency_passengers.
    + apply (sample_weight _ _ _ _ _ 1%nat); [reflexivity|simpl; lra].
    + apply (sample_weight _ _ _ _ _ 0%nat); [reflexivity|simpl; lra].
  - eexists. split.
    + erewrite update_vehicle_history_spec by reflexivity. reflexivity.
    + simpl. rewrite lookup_empty. simpl. by rewrite lookup_insert_eq.
  - rewrite control_logic_as_written. unfold traci.
    by rewrite detect_vehicles_tick.
Qed.

(** Whatever the tick, [control_logic] returns the store it was given. *)
Lemma control_logic_never_records cls traci tls_id self self' veh_id :
  control_logic cls traci tls_id self = Ok (tt, self') ->
  vehicles self' !! veh_id = vehicles self !! veh_id.
Proof. intros Hrun. by rewrite (control_logic_store _ _ _ _ _ Hrun). Qed.

(** ** Crossings are append-only, patterns come in batches of five *)

Lemma _detect_patterns_keeps_crossings veh_id self self' v hist :
  _detect_patterns veh_id self = Ok (tt, self') ->
  vehicles self !! v = Some hist ->
  exists hist', vehicles self' !! v = Some hist'
                /\ crossings hist' = crossings hist.
Proof.
  intros Hrun Hv.
  destruct (vehicles self !! veh_id) as [h|] eqn:Hh;
    [|by rewrite _detect_patterns_missing in Hrun].
  destruct (decide (crossings h = [])) as [Hnil|Hne'];
    [by rewrite (_detect_patterns_no_samples _ _ h) in Hrun|].
  rewrite (_detect_patterns_spec _ _ h) in Hrun by done.
  injection Hrun as <-. simpl.
  destruct (decide (veh_id = v)) as [->|Hne].
  - rewrite lookup_insert_eq. eexists. split; [done|]. simpl. congruence.
  - rewrite lookup_insert_ne by done. by exists hist.
Qed.

Lemma run_call_appends cls traci tls_id c self self' v hist :
  run_call cls traci tls_id c self = Ok (tt, self') ->
  vehicles self !! v = Some hist ->
  exists hist' suffix,
    vehicles self' !! v = Some hist'
    /\ crossings hist' = crossings hist ++ suffix.
Proof.
  intros Hrun Hv. destruct c as [veh_id|]; simpl in Hrun.
  - destruct (get_approach_direction cls) as [approach|] eqn:Happroach;
      [|by rewrite update_vehicle_history_undefined in Hrun].
    rewrite (update_vehicle_history_spec _ _ _ _ approach) in Hrun by done.
    injection Hrun as <-. simpl.
    destruct (decide (veh_id = v)) as [->|Hne].
    + rewrite lookup_insert_eq, Hv. simpl. by eexists _, _.
    + rewrite lookup_insert_ne by done. exists hist, [].
      by rewrite app_nil_r.
  - rewrite (control_logic_store _ _ _ _ _ Hrun). exists hist, [].
    by rewrite app_nil_r.
Qed.

Lemma batch_ok_run_call cls traci tls_id c self self' :
  batch_ok (vehicles self) ->
  run_call cls traci tls_id c self = Ok (tt, self') ->
  batch_ok (vehicles self').
Proof.
  intros Hok Hrun. destruct c as [veh_id|]; simpl in Hrun.
  - destruct (get_approach_direction cls) as [approach|] eqn:Happroach;
      [|by rewrite update_vehicle_history_undefined in Hrun].
    rewrite (update_vehicle_history_spec _ _ _ _ approach) in Hrun by done.
    injection Hrun as <-. cbn [vehicles set_vehicles]. intros v hist.
    destruct (decide (veh_id = v)) as [->|Hne].
    + rewrite lookup_insert_eq. intros [= <-]. cbn [crossings patterns].
      rewrite !length_app. cbn [length]. intros Hlen.
      set (n := length _) in *.
      assert (Hmod : ((n + 1) mod 5)%nat <> 0%nat)
        by (rewrite Nat.mod_small by lia; lia).
      rewrite decide_False by exact Hmod. subst n.
      destruct (vehicles self !! v) as [old|] eqn:Hold; simpl in *; [|done].
      apply (Hok _ _ Hold). lia.
    + rewrite lookup_insert_ne by done. apply Hok.
  - by rewrite (control_logic_store _ _ _ _ _ Hrun).
Qed.

Lemma reachable_batch_ok cls tls_id t self :
  reachable cls tls_id t self -> batch_ok (vehicles self).
Proof.
  induction 1 as [t|t self traci c self' _ IH Hle Hrun].
  - intros v hist. simpl. by rewrite lookup_empty.
  - by eapply batch_ok_run_call.
Qed.

(** C8. Starting from a reachable engine state, every call that the
    engine completes keeps each vehicle's crossing sequence as a prefix
    of the new one (nothing is reordered or dropped).  A call of
    [update_vehicle_history] appends exactly one crossing to the
    vehicle's sequence, leaves the other vehicles alone, and replaces
    the vehicle's patterns by a fresh clustering exactly when the new
    crossing count is a multiple of 5 (it is at least 1), keeping them
    unchanged otherwise.  Consequently a vehicle with fewer than 5
    crossings has no patterns computed. *)
Theorem crossings_append_only_batch_of_five cls tls_id t self traci c self' :
  reachable cls tls_id t self ->
  run_call cls traci tls_id c self = Ok (tt, self') ->
  (forall v hist, vehicles self !! v = Some hist ->
     exists hist' suffix,
       vehicles self' !! v = Some hist'
       /\ crossings hist' = crossings hist ++ suffix)
  /\ (forall veh_id, c = CallUpdate veh_id ->
        exists approach hist',
          let old := default {| crossings := []; patterns := None |}
                             (vehicles self !! veh_id) in
          get_approach_direction cls = Some approach
          /\ vehicles self' !! veh_id = Some hist'
          /\ crossings hist'
             = crossings old ++ [(getTime traci, approach veh_id)]
          /\ (0 < length (crossings hist'))%nat
          /\ patterns hist'
             = (if decide (length (crossings hist') mod 5 = 0)%nat
                then Some (map pattern_of
                               (clusters (map fst (crossings hist'))))
                else patterns old)
          /\ forall other, other <> veh_id ->
               vehicles self' !! other = vehicles self !! other)
  /\ (forall v hist', vehicles self' !! v = Some hist' ->
        (length (crossings hist') < 5)%nat -> patterns hist' = None).
Proof.
  intros Hreach Hrun. split; [|split].
  - intros v hist Hv. by eapply run_call_appends.
  - intros veh_id ->. simpl in Hrun.
    destruct (get_approach_direction cls) as [approach|] eqn:Happroach;
      [|by rewrite update_vehicle_history_undefined in Hrun].
    rewrite (update_vehicle_history_spec _ _ _ _ approach) in Hrun by done.
    injection Hrun as <-. simpl.
    eexists approach, _. split; [done|].
    split; [by rewrite lookup_insert_eq|]. simpl.
    split; [done|]. split; [rewrite length_app; simpl; lia|].
    split; [done|].
    intros other Hne. by rewrite lookup_insert_ne.
  - apply reachable_batch_ok in Hreach.
    by eapply batch_ok_run_call.
Qed.

Lemma crossings_append_only_batch_of_five_witness :
  let traci := tick [] passenger 200 0 210 in
  let self' :=
    set_vehicles
      (<["n1"%string := {| crossings := [(100, NS); (200, NS)];
                           patterns := None |}]> (vehicles sample_engine))
      sample_engine in
  reachable (host "J1") "J1" 100 sample_engine
  /\ run_call (host "J1") traci "J1" (CallUpdate "n1") sample_engine
     = Ok (tt, self')
  /\ (forall v hist', vehicles self' !! v = Some hist' ->
        (length (crossings hist') < 5)%nat -> patterns hist' = None).
Proof.
  intros traci self'.
  assert (Hrun : run_call (host "J1") traci "J1" (CallUpdate "n1") sample_engine
                 = Ok (tt, self')).
  { simpl. erewrite update_vehicle_history_spec by reflexivity.
    simpl. by rewrite lookup_insert_eq. }
  split; [apply sample_engine_reachable|]. split; [exact Hrun|].
  apply (crossings_append_only_batch_of_five (host "J1") "J1" 100 sample_engine
           traci (CallUpdate "n1") self' sample_engine_reachable Hrun).
Defined.

(** ** Clustering: positions and neighbourhoods *)

Section clustering.

Local Open Scope nat_scope.

Lemma indices_from_elem {T} (P : T -> bool) (s : nat) (X : list T) (j : nat) :
  j ∈ DBSCAN.indices_from P s X
  <-> exists y, s <= j /\ X !! (j - s) = Some y /\ P y = true.
Proof.
  revert s. induction X as [|x X IH]; intros s; simpl.
  - split; [by intros ?%elem_of_nil|]. by intros (y & _ & ? & _).
  - assert (Htail : j ∈ DBSCAN.indices_from P (S s) X
                    <-> exists y, s < j /\ X !! (j - S s) = Some y /\ P y = true).
    { rewrite IH. split; intros (y & ? & ? & ?); exists y; (split; [lia|done]). }
    destruct (decide (j = s)) as [->|Hne].
    + rewrite Nat.sub_diag. simpl. destruct (P x) eqn:HPx.
      * split; [|intros _; by left]. intros _. by exists x.
      * rewrite Htail. split; [intros (y & ? & _); lia|].
        intros (y & _ & [= <-] & ?). congruence.
    + assert (Hshift : s <= j -> j - s = S (j - S s)) by lia.
      split.
      * intros Hin.
        assert (Hin' : j ∈ DBSCAN.indices_from P (S s) X).
        { destruct (P x); [|done].
          apply elem_of_cons in Hin as [?|?]; [done|done]. }
        apply Htail in Hin' as (y & ? & ? & ?). exists y.
        split; [lia|]. rewrite Hshift by lia. by split.
      * intros (y & Hle & Hy & HPy). rewrite Hshift in Hy by lia.
        assert (Hin' : j ∈ DBSCAN.indices_from P (S s) X).
        { apply Htail. exists y. split; [lia|]. by split. }
        destruct (P x); [by right|done].
Qed.

Lemma indices_from_NoDup {T} (P : T -> bool) (s : nat) (X : list T) :
  NoDup (DBSCAN.indices_from P s X).
Proof.
  revert s. induction X as [|x X IH]; intros s; simpl; [constructor|].
  destruct (P x); [|apply IH]. constructor; [|apply IH].
  rewrite indices_from_elem. intros (y & ? & _). lia.
Qed.

Lemma indices_from_length {T} (P : T -> bool) (s : nat) (X : list T) :
  length (DBSCAN.indices_from P s X) = length (List.filter P X).
Proof.
  revert s. induction X as [|x X IH]; intros s; simpl; [done|].
  destruct (P x); simpl; by rewrite IH.
Qed.

Lemma members_elem (labels : list Z) (c : Z) (v : nat) :
  v ∈ DBSCAN.members labels c <-> labels !! v = Some c.
Proof.
  unfold DBSCAN.members. rewrite indices_from_elem. rewrite Nat.sub_0_r.
  split.
  - intros (y & _ & Hy & Hc). apply bool_decide_eq_true in Hc. congruence.
  - intros Hv. exists c. split; [lia|]. split; [done|].
    by apply bool_decide_eq_true.
Qed.

(** A duplicate-free list of positions that all carry label [c] is no
    longer than the member list of [c]. *)
Lemma members_count (labels : list Z) (c : Z) (l : list nat) :
  NoDup l -> (forall v, v ∈ l -> labels !! v = Some c) ->
  length l <= length (DBSCAN.members labels c).
Proof.
  intros Hnd Hl. apply submseteq_length, NoDup_submseteq; [done|].
  intros v Hv. apply members_elem. by apply Hl.
Qed.

Lemma three_distinct (l : list nat) (a b c : nat) :
  a ∈ l -> b ∈ l -> c ∈ l -> a <> b -> a <> c -> b <> c -> 3 <= length l.
Proof.
  intros Ha Hb Hc Hab Hac Hbc.
  change 3 with (length [a; b; c]).
  apply submseteq_length, NoDup_submseteq.
  - apply NoDup_cons. split.
    + intros [->|[->|?%elem_of_nil]%elem_of_cons]%elem_of_cons; done.
    + apply NoDup_cons. split; [|apply NoDup_singleton].
      intros [->|?%elem_of_nil]%elem_of_cons; done.
  - intros x Hx. repeat (apply elem_of_cons in Hx as [->|Hx]; [done|]).
    by apply elem_of_nil in Hx.
Qed.

End clustering.

(** ** Clustering: one expansion *)

Section expansion.

Local Open Scope nat_scope.

Variables (n min_samples : nat) (core : nat -> bool) (neighbors : nat -> list nat).
Hypothesis Hgraph : DBSCAN.graph_ok n min_samples core neighbors.

Lemma unlabelled_spec (labels : list Z) (v : nat) :
  DBSCAN.unlabelled labels v = true <-> labels !! v = Some (-1)%Z.
Proof. unfold DBSCAN.unlabelled. apply bool_decide_eq_true. Qed.

Lemma unlabelled_false (labels : list Z) (v : nat) :
  length labels = n -> v < n ->
  DBSCAN.unlabelled labels v = false -> DBSCAN.labelled labels v.
Proof.
  intros Hlen Hv Hun. unfold DBSCAN.unlabelled in Hun.
  apply bool_decide_eq_false in Hun.
  destruct (lookup_lt_is_Some_2 labels v) as [c Hc]; [lia|].
  exists c. split; [done|]. congruence.
Qed.

Lemma labelled_insert (labels : list Z) (i v : nat) (k : Z) :
  k <> (-1)%Z -> labels !! i = Some (-1)%Z ->
  DBSCAN.labelled labels v -> DBSCAN.labelled (<[i := k]> labels) v.
Proof.
  intros Hk Hi (c & Hc & Hne). exists c. split; [|done].
  rewrite list_lookup_insert_ne; [done|]. intros ->. congruence.
Qed.

Lemma pending_insert (j : nat) (labels : list Z) (i : nat) (k : Z) :
  labels !! i = Some (-1)%Z -> k <> (-1)%Z ->
  DBSCAN.pending neighbors j (<[i := k]> labels)
  + S (length (neighbors (j + i)))
  = DBSCAN.pending neighbors j labels.
Proof.
  revert j i. induction labels as [|c labels IH]; intros j i Hi Hk; [done|].
  destruct i as [|i]; simpl in *.
  - injection Hi as ->. rewrite Nat.add_0_r.
    rewrite (bool_decide_eq_false_2 (k = (-1)%Z)) by done.
    rewrite bool_decide_eq_true_2 by done. lia.
  - rewrite <- (IH (S j) i Hi Hk).
    replace (j + S i) with (S j + i) by lia. lia.
Qed.

Lemma pushed_elem (labels : list Z) (i v : nat) :
  v ∈ rev (List.filter (DBSCAN.unlabelled labels) (neighbors i))
  <-> v ∈ neighbors i /\ labels !! v = Some (-1)%Z.
Proof.
  by rewrite !list_elem_of_In, <- in_rev, filter_In, unlabelled_spec.
Qed.

(** One expansion started in a state that satisfies the invariant runs
    to an empty stack within the fuel and keeps the invariant. *)
Lemma dfs_keeps_inv (labels0 : list Z) (k : Z) (seed : nat) :
  k <> (-1)%Z -> core seed = true -> labels0 !! seed = Some (-1)%Z ->
  forall fuel work labels,
    length work + DBSCAN.pending neighbors 0 labels < fuel ->
    DBSCAN.dfs_inv n core neighbors labels0 k seed work labels ->
    DBSCAN.dfs_inv n core neighbors labels0 k seed []
      (DBSCAN.dfs core neighbors fuel k work labels).
Proof.
  intros Hk Hseed Hseed0. induction fuel as [|fuel IH]; intros work labels Hfuel Hinv;
    [lia|].
  destruct work as [|i stack]; [done|]. simpl.
  destruct Hinv as [Hlen Hext Hfront Hwork Hborder Hchain Hsd].
  assert (Hi : i < n).
  { destruct (Hwork i) as [->|(u & _ & _ & _ & Hu)]; [by left| |].
    - destruct (Hext seed) as [He|[_ He]].
      + rewrite Hseed0 in He. apply lookup_lt_Some in He. lia.
      + apply lookup_lt_Some in He. lia.
    - by apply (DBSCAN.nb_range _ _ _ _ Hgraph) in Hu as [_ ?]. }
  destruct (DBSCAN.unlabelled labels i) eqn:Hun.
  - apply unlabelled_spec in Hun.
    assert (Hi0 : labels0 !! i = Some (-1)%Z).
    { destruct (Hext i) as [He|[He _]]; congruence. }
    assert (Hnew : <[i := k]> labels !! i = Some k)
      by (apply list_lookup_insert_eq; lia).
    apply IH.
    + pose proof (pending_insert 0 labels i k Hun Hk) as Hp. simpl in Hp.
      rewrite length_app. simpl in Hfuel.
      assert (length (if core i
                      then rev (List.filter (DBSCAN.unlabelled (<[i := k]> labels))
                                            (neighbors i))
                      else []) <= length (neighbors i)).
      { destruct (core i); simpl; [|lia].
        rewrite length_rev. apply filter_length_le. }
      lia.
    + split.
      * by rewrite length_insert.
      * intros v. destruct (decide (v = i)) as [->|Hne]; [by right|].
        rewrite list_lookup_insert_ne by done. apply Hext.
      * intros u v Hu0 Huk Hcore Hv.
        destruct (decide (u = i)) as [->|Hne].
        -- rewrite Hcore.
           destruct (DBSCAN.unlabelled (<[i := k]> labels) v) eqn:Hv1.
           ++ right. apply elem_of_app. left. apply pushed_elem.
              by apply unlabelled_spec in Hv1.
           ++ left. apply unlabelled_false; [by rewrite length_insert| |done].
              by apply (DBSCAN.nb_range _ _ _ _ Hgraph) in Hv as [_ ?].
        -- rewrite list_lookup_insert_ne in Huk by done.
           destruct (Hfront u v Hu0 Huk Hcore Hv) as [Hl|Hw].
           ++ left. by apply labelled_insert.
           ++ apply elem_of_cons in Hw as [->|Hw].
              ** left. exists k. by split.
              ** right. apply elem_of_app. by right.
      * intros v Hv. apply elem_of_app in Hv as [Hv|Hv].
        -- right. exists i. destruct (core i) eqn:Hci.
           ++ apply pushed_elem in Hv as [Hv _]. by split.
           ++ by apply elem_of_nil in Hv.
        -- destruct (Hwork v) as [->|(u & Hcu & Hu0 & Huk & Hvu)];
             [by right|by left|].
           right. exists u. split; [done|]. split; [done|]. split; [|done].
           rewrite list_lookup_insert_ne; [done|]. intros ->. congruence.
      * intros v Hv0 Hvk Hcv.
        destruct (decide (v = i)) as [->|Hne].
        -- destruct (Hwork i) as [->|(u & Hcu & Hu0 & Huk & Hvu)];
             [by left|congruence|].
           exists u. split; [done|]. split; [|done].
           rewrite list_lookup_insert_ne; [done|]. intros ->. congruence.
        -- rewrite list_lookup_insert_ne in Hvk by done.
           destruct (Hborder v Hv0 Hvk Hcv) as (u & Hcu & Huk & Hvu).
           exists u. split; [done|]. split; [|done].
           rewrite list_lookup_insert_ne; [done|]. intros ->. congruence.
      * intros v Hv0 Hvk Hcv.
        destruct (decide (v = i)) as [->|Hne].
        -- destruct (Hwork i) as [->|(u & Hcu & Hu0 & Huk & Hvu)];
             [by left|apply rtc_refl|].
           eapply rtc_r; [by apply Hchain|]. by split.
        -- rewrite list_lookup_insert_ne in Hvk by done. by apply Hchain.
      * destruct Hsd as [Hsd|Hsd].
        -- apply elem_of_cons in Hsd as [->|Hsd]; [by right|].
           left. apply elem_of_app. by right.
        -- right. rewrite list_lookup_insert_ne; [done|]. intros ->. congruence.
  - assert (Hli : DBSCAN.labelled labels i) by by apply unlabelled_false.
    apply IH; [simpl in Hfuel; lia|]. split; try done.
    + intros u v Hu0 Huk Hcore Hv.
      destruct (Hfront u v Hu0 Huk Hcore Hv) as [Hl|Hw]; [by left|].
      apply elem_of_cons in Hw as [->|Hw]; [by left|by right].
    + intros v Hv. apply Hwork. by right.
    + destruct Hsd as [Hsd|Hsd]; [|by right].
      apply elem_of_cons in Hsd as [->|Hsd]; [|by left].
      right. destruct Hli as (c & Hc & Hcne).
      destruct (Hext i) as [He|[_ He]]; [congruence|done].
Qed.

End expansion.

(** ** Clustering: the labelling loop *)

Section labelling.

Local Open Scope nat_scope.

Variables (n min_samples : nat) (core : nat -> bool) (neighbors : nat -> list nat).
Hypothesis Hgraph : DBSCAN.graph_ok n min_samples core neighbors.

Lemma core_spec (u : nat) :
  core u = true <-> min_samples <= length (neighbors u).
Proof.
  rewrite (DBSCAN.core_def _ _ _ _ Hgraph). apply bool_decide_eq_true.
Qed.

Lemma linked_sym (u v : nat) :
  DBSCAN.linked core neighbors u v -> DBSCAN.linked core neighbors v u.
Proof.
  intros (Hu & Hv & Huv). split; [done|]. split; [done|].
  by apply (DBSCAN.nb_sym _ _ _ _ Hgraph).
Qed.

Lemma linked_rtc_sym (u v : nat) :
  rtc (DBSCAN.linked core neighbors) u v -> rtc (DBSCAN.linked core neighbors) v u.
Proof.
  induction 1 as [|u w v Huw _ IH]; [apply rtc_refl|].
  eapply rtc_r; [exact IH|by apply linked_sym].
Qed.

(** When a core sample is still unlabelled, so are all its neighbours:
    a labelled neighbour would be a core sample, whose cluster would
    have reached the seed, or a border sample with three distinct
    neighbours (itself, its own core sample and the seed), hence core
    after all. *)
Lemma seed_neighbours_unlabelled (labels : list Z) (seed v : nat) :
  DBSCAN.clusters_ok n min_samples core neighbors labels ->
  core seed = true -> labels !! seed = Some (-1)%Z ->
  v ∈ neighbors seed -> labels !! v = Some (-1)%Z.
Proof.
  intros [Hlen Hcomplete Hborder _ _] Hcs Hs Hv.
  pose proof (DBSCAN.nb_range _ _ _ _ Hgraph _ _ Hv) as [Hsn Hvn].
  destruct (lookup_lt_is_Some_2 labels v) as [c Hc]; [lia|].
  destruct (decide (c = (-1)%Z)) as [->|Hne]; [done|].
  pose proof (DBSCAN.nb_sym _ _ _ _ Hgraph _ _ Hv) as Hsv.
  destruct (core v) eqn:Hcv.
  - destruct (Hcomplete v seed c Hc Hne Hcv Hsv) as [(c' & Hc' & Hne') _].
    congruence.
  - destruct (Hborder v c Hc Hne Hcv) as (u & Hcu & Huc & Hvu).
    pose proof (DBSCAN.nb_sym _ _ _ _ Hgraph _ _ Hvu) as Huv.
    pose proof (DBSCAN.nb_refl _ _ _ _ Hgraph v Hvn) as Hvv.
    assert (3 <= length (neighbors v)).
    { apply (three_distinct _ v seed u); try done.
      - intros ->. congruence.
      - intros ->. congruence.
      - intros ->. congruence. }
    pose proof (DBSCAN.min_samples_le_3 _ _ _ _ Hgraph).
    assert (core v = true) by (apply core_spec; lia). congruence.
Qed.

(** A completed expansion with a cluster number that is not yet in use
    restores the invariant of the labelling. *)
Lemma expansion_restores (labels0 labels : list Z) (k : Z) (seed : nat) :
  k <> (-1)%Z -> core seed = true -> labels0 !! seed = Some (-1)%Z ->
  (forall v c, labels0 !! v = Some c -> (c < k)%Z) ->
  DBSCAN.clusters_ok n min_samples core neighbors labels0 ->
  DBSCAN.dfs_inv n core neighbors labels0 k seed [] labels ->
  DBSCAN.clusters_ok n min_samples core neighbors labels.
Proof.
  intros Hk Hcs Hs0 Hfresh Hok [Hlen Hext Hfront Hwork Hborder Hchain Hsd].
  assert (Hold : forall v c,
            labels0 !! v = Some c -> c <> (-1)%Z -> labels !! v = Some c).
  { intros v c Hc Hne. destruct (Hext v) as [He|[He _]]; congruence. }
  assert (Hcase : forall v c, labels !! v = Some c -> c <> (-1)%Z ->
            labels0 !! v = Some c \/ (labels0 !! v = Some (-1)%Z /\ c = k)).
  { intros v c Hc Hne. destruct (Hext v) as [He|[He Hvk]].
    - left. congruence.
    - right. split; congruence. }
  pose proof Hok as [Hlen0 Hcomplete0 Hborder0 Hsize0 Hchain0].
  split.
  - done.
  - intros u v c Hu Hne Hcu Hv. destruct (Hcase u c Hu Hne) as [Hu0|[Hu0 ->]].
    + destruct (Hcomplete0 u v c Hu0 Hne Hcu Hv) as [(c' & Hc' & Hne') Hsame].
      split; [exists c'; split; [by apply Hold|done]|].
      intros Hcv. apply Hold; [by apply Hsame|done].
    + destruct (Hfront u v Hu0 Hu Hcu Hv) as [(c' & Hc' & Hne')|Hnil];
        [|by apply elem_of_nil in Hnil].
      split; [by exists c'|]. intros Hcv.
      destruct (Hcase v c' Hc' Hne') as [Hv0|[_ ->]]; [|done].
      pose proof (DBSCAN.nb_sym _ _ _ _ Hgraph _ _ Hv) as Huv.
      destruct (Hcomplete0 v u c' Hv0 Hne' Hcv Huv) as [(c'' & Hc'' & Hne'') _].
      congruence.
  - intros v c Hc Hne Hcv. destruct (Hcase v c Hc Hne) as [Hv0|[Hv0 ->]].
    + destruct (Hborder0 v c Hv0 Hne Hcv) as (u & Hcu & Hu0 & Hvu).
      exists u. split; [done|]. split; [by apply Hold|done].
    + by apply Hborder.
  - intros v c Hc Hne. destruct (Hcase v c Hc Hne) as [Hv0|[Hv0 ->]].
    + etrans; [by apply (Hsize0 v c)|].
      apply members_count; [apply indices_from_NoDup|].
      intros w Hw. apply members_elem in Hw. by apply Hold.
    + assert (Hsk : labels !! seed = Some k).
      { destruct Hsd as [Hnil|?]; [by apply elem_of_nil in Hnil|done]. }
      etrans; [by apply core_spec|].
      apply members_count; [apply (DBSCAN.nb_nodup _ _ _ _ Hgraph)|].
      intros w Hw.
      assert (Hw0 : labels0 !! w = Some (-1)%Z)
        by exact (seed_neighbours_unlabelled labels0 seed w Hok Hcs Hs0 Hw).
      destruct (Hfront seed w Hs0 Hsk Hcs Hw) as [(c' & Hc' & Hne')|Hnil];
        [|by apply elem_of_nil in Hnil].
      destruct (Hext w) as [Hew|[_ Hew]]; congruence.
  - intros u v c Hu Hv Hne Hcu Hcv.
    destruct (Hcase u c Hu Hne) as [Hu0|[Hu0 Huk]];
      destruct (Hcase v c Hv Hne) as [Hv0|[Hv0 Hvk]].
    + by apply (Hchain0 u v c).
    + subst c. apply Hfresh in Hu0. lia.
    + subst c. apply Hfresh in Hv0. lia.
    + subst c. etrans; [apply linked_rtc_sym; by apply Hchain|by apply Hchain].
Qed.

(** One round of the outer loop keeps the invariant, keeps the cluster
    numbers in use below the next free one, keeps every label, and
    leaves the visited sample labelled when it is a core sample. *)
Lemma visit_keeps_ok (labels : list Z) (label_num : Z) (i : nat) :
  i < n -> (0 <= label_num)%Z ->
  DBSCAN.clusters_ok n min_samples core neighbors labels ->
  (forall v c, labels !! v = Some c -> (c < label_num)%Z) ->
  DBSCAN.clusters_ok n min_samples core neighbors
    (DBSCAN.visit core neighbors (labels, label_num) i).1
  /\ (0 <= (DBSCAN.visit core neighbors (labels, label_num) i).2)%Z
  /\ (forall v c,
        (DBSCAN.visit core neighbors (labels, label_num) i).1 !! v = Some c ->
        (c < (DBSCAN.visit core neighbors (labels, label_num) i).2)%Z)
  /\ (forall v, DBSCAN.labelled labels v ->
        DBSCAN.labelled (DBSCAN.visit core neighbors (labels, label_num) i).1 v)
  /\ (core i = true ->
        DBSCAN.labelled (DBSCAN.visit core neighbors (labels, label_num) i).1 i).
Proof.
  intros Hi Hk Hok Hfresh. unfold DBSCAN.visit.
  destruct (DBSCAN.unlabelled labels i) eqn:Hun; cbn [negb orb fst snd].
  2:{ repeat (split; [done|]). intros _.
      apply (unlabelled_false n); [apply (DBSCAN.ok_length _ _ _ _ _ Hok)|done|done]. }
  destruct (core i) eqn:Hci; cbn [negb orb fst snd];
    [|repeat (split; [done|]); done].
  apply unlabelled_spec in Hun.
  assert (Hinv : DBSCAN.dfs_inv n core neighbors labels label_num i []
                   (DBSCAN.dfs core neighbors (DBSCAN.dfs_fuel neighbors labels)
                               label_num [i] labels)).
  { apply (dfs_keeps_inv n min_samples core neighbors Hgraph); try done; [lia| |].
    - unfold DBSCAN.dfs_fuel. simpl. lia.
    - split.
      + apply (DBSCAN.ok_length _ _ _ _ _ Hok).
      + by left.
      + intros u v Hu0 Huk. assert (label_num = (-1)%Z) by congruence. lia.
      + intros v Hv. left. by apply list_elem_of_singleton in Hv.
      + intros v Hv0 Hvk. assert (label_num = (-1)%Z) by congruence. lia.
      + intros v Hv0 Hvk. assert (label_num = (-1)%Z) by congruence. lia.
      + left. by left. }
  pose proof Hinv as [_ Hext _ _ _ _ Hsd].
  split; [apply (expansion_restores labels _ label_num i); try done; lia|].
  split; [lia|]. split; [|split].
  - intros v c Hc. destruct (Hext v) as [He|[_ He]].
    + rewrite Hc in He. symmetry in He. apply Hfresh in He. lia.
    + assert (c = label_num) by congruence. lia.
  - intros v (c & Hc & Hne). exists c. split; [|done].
    destruct (Hext v) as [He|[He _]]; congruence.
  - intros _. exists label_num. split; [|lia].
    destruct Hsd as [Hnil|?]; [by apply elem_of_nil in Hnil|done].
Qed.

(** The labels of the whole loop satisfy the invariant, and every core
    sample carries a cluster number. *)
Lemma dbscan_inner_ok :
  DBSCAN.clusters_ok n min_samples core neighbors
    (DBSCAN.dbscan_inner core neighbors n)
  /\ forall u, u < n -> core u = true ->
       DBSCAN.labelled (DBSCAN.dbscan_inner core neighbors n) u.
Proof.
  unfold DBSCAN.dbscan_inner.
  assert (Hloop : forall l st (P : nat -> Prop),
            (forall i, i ∈ l -> i < n) ->
            (0 <= st.2)%Z ->
            DBSCAN.clusters_ok n min_samples core neighbors st.1 ->
            (forall v c, st.1 !! v = Some c -> (c < st.2)%Z) ->
            (forall u, P u -> core u = true -> DBSCAN.labelled st.1 u) ->
            DBSCAN.clusters_ok n min_samples core neighbors
              (fold_left (DBSCAN.visit core neighbors) l st).1
            /\ forall u, P u \/ u ∈ l -> core u = true ->
                 DBSCAN.labelled (fold_left (DBSCAN.visit core neighbors) l st).1 u).
  { induction l as [|i l IH]; intros [labels k] P Hl Hk Hok Hfresh HP;
      simpl in *.
    - split; [done|]. intros u [Hu|Hu%elem_of_nil]; [by apply HP|done].
    - destruct (visit_keeps_ok labels k i) as (Hok' & Hk' & Hfresh' & Hmono & Hi);
        [apply Hl; by left|done|done|done|].
      destruct (IH (DBSCAN.visit core neighbors (labels, k) i)
                   (fun u => P u \/ u = i)) as [Hok'' Hall]; try done.
      + intros j Hj. apply Hl. by right.
      + intros u [Hu| ->] Hcu; [apply Hmono; by apply HP|by apply Hi].
      + split; [done|]. intros u [Hu|Hu] Hcu; apply Hall; try done.
        * by left; left.
        * apply elem_of_cons in Hu as [->|Hu]; [left; by right|by right]. }
  destruct (Hloop (seq 0 n) (replicate n (-1)%Z, 0%Z) (fun _ => False))
    as [Hok Hall]; simpl.
  - intros i Hi%elem_of_seq. lia.
  - lia.
  - split.
    + by rewrite length_replicate.
    + intros u v c Hc Hne. apply lookup_replicate in Hc as [-> _]. done.
    + intros v c Hc Hne. apply lookup_replicate in Hc as [-> _]. done.
    + intros v c Hc Hne. apply lookup_replicate in Hc as [-> _]. done.
    + intros u v c Hc _ Hne. apply lookup_replicate in Hc as [-> _]. done.
  - intros v c Hc. apply lookup_replicate in Hc as [-> _]. lia.
  - by intros.
  - split; [done|]. intros u Hu Hcu. apply Hall; [|done].
    right. apply elem_of_seq. lia.
Qed.

End labelling.

(** ** Clustering: the fitted labels *)

Section fitted.

Local Open Scope nat_scope.

Context {T : Type} (near : T -> T -> bool) (X : list T).
Hypothesis near_refl : forall x, near x x = true.
Hypothesis near_sym : forall x y, near x y = near y x.

Lemma neighbors_elem (u v : nat) :
  v ∈ default [] (DBSCAN.radius_neighbors near X !! u)
  <-> exists x y, X !! u = Some x /\ X !! v = Some y /\ near x y = true.
Proof.
  unfold DBSCAN.radius_neighbors. rewrite list_lookup_fmap.
  destruct (X !! u) as [x|]; simpl.
  - rewrite indices_from_elem, Nat.sub_0_r. split.
    + intros (y & _ & Hy & Hxy). by exists x, y.
    + intros (x' & y & [= <-] & Hy & Hxy). exists y. split; [lia|done].
  - split; [by intros ?%elem_of_nil|]. by intros (x & y & ? & _).
Qed.

Lemma radius_neighbors_graph_ok (min_samples : nat) :
  min_samples <= 3 ->
  DBSCAN.graph_ok (length X) min_samples
    (fun i => bool_decide
                (min_samples
                 <= length (default [] (DBSCAN.radius_neighbors near X !! i))))
    (fun i => default [] (DBSCAN.radius_neighbors near X !! i)).
Proof.
  intros Hms. split.
  - intros u v (x & y & Hx & Hy & _)%neighbors_elem.
    apply lookup_lt_Some in Hx, Hy. by split.
  - intros u Hu. apply neighbors_elem.
    destruct (lookup_lt_is_Some_2 X u Hu) as [x Hx]. by exists x, x.
  - intros u v (x & y & Hx & Hy & Hxy)%neighbors_elem.
    apply neighbors_elem. exists y, x. by rewrite near_sym.
  - intros u. unfold DBSCAN.radius_neighbors. rewrite list_lookup_fmap.
    destruct (X !! u); simpl; [apply indices_from_NoDup|constructor].
  - done.
  - done.
Qed.

Lemma fit_with_ok (min_samples : nat) :
  min_samples <= 3 ->
  length (DBSCAN.fit_with near min_samples X) = length X
  /\ forall v c,
       DBSCAN.fit_with near min_samples X !! v = Some c -> c <> (-1)%Z ->
       min_samples <= length (DBSCAN.members (DBSCAN.fit_with near min_samples X) c).
Proof.
  intros Hms.
  pose proof (dbscan_inner_ok _ _ _ _ (radius_neighbors_graph_ok min_samples Hms))
    as [[Hlen _ _ Hsize _] _].
  split; [exact Hlen|exact Hsize].
Qed.

Lemma neighbors_length (u : nat) (x : T) :
  X !! u = Some x ->
  length (default [] (DBSCAN.radius_neighbors near X !! u))
  = length (List.filter (near x) X).
Proof.
  intros Hx. unfold DBSCAN.radius_neighbors. rewrite list_lookup_fmap, Hx.
  apply indices_from_length.
Qed.

Lemma core_at_spec (min_samples u : nat) :
  DBSCAN.core_at near min_samples X u
  <-> u < length X
      /\ bool_decide
           (min_samples
            <= length (default [] (DBSCAN.radius_neighbors near X !! u))) = true.
Proof.
  rewrite bool_decide_eq_true. split.
  - intros (x & Hx & Hle). split; [by apply lookup_lt_Some in Hx|].
    by rewrite (neighbors_length u x Hx).
  - intros [Hu Hle]. destruct (lookup_lt_is_Some_2 X u Hu) as [x Hx].
    exists x. split; [done|]. by rewrite <- (neighbors_length u x Hx).
Qed.

(** The labels in terms of the nearness test: core samples are
    labelled; the neighbours of a core sample are labelled, core
    neighbours with the same label; every labelled sample is near a core
    sample of its cluster; and core samples of one cluster are joined by
    a chain of core samples, each near the next. *)
Lemma fit_with_labels (min_samples : nat) :
  min_samples <= 3 ->
  let labels := DBSCAN.fit_with near min_samples X in
  let core := DBSCAN.core_at near min_samples X in
  let nb := DBSCAN.near_at near X in
  (forall u, core u -> DBSCAN.labelled labels u)
  /\ (forall u v c, core u -> labels !! u = Some c -> nb u v ->
        DBSCAN.labelled labels v /\ (core v -> labels !! v = Some c))
  /\ (forall v c, labels !! v = Some c -> c <> (-1)%Z ->
        exists u, core u /\ labels !! u = Some c /\ nb u v)
  /\ (forall u v c, labels !! u = Some c -> labels !! v = Some c ->
        core u -> core v ->
        rtc (fun a b => core a /\ core b /\ nb a b) u v).
Proof.
  intros Hms labels core nb.
  pose proof (radius_neighbors_graph_ok min_samples Hms) as Hgraph.
  pose proof (dbscan_inner_ok _ _ _ _ Hgraph)
    as [[Hlen Hcomplete Hborder _ Hchain] Hcore].
  change (DBSCAN.dbscan_inner _ _ _) with labels in Hlen, Hcomplete, Hborder,
    Hchain, Hcore.
  assert (Hnb : forall u v,
            nb u v <-> v ∈ default [] (DBSCAN.radius_neighbors near X !! u)).
  { intros u v. symmetry. apply neighbors_elem. }
  assert (Hnoise : forall u c, core u -> labels !! u = Some c -> c <> (-1)%Z).
  { intros u c [Hu Hcu]%core_at_spec Huc.
    destruct (Hcore u Hu Hcu) as (c' & Hc' & Hne). congruence. }
  split; [|split; [|split]].
  - intros u [Hu Hcu]%core_at_spec. by apply Hcore.
  - intros u v c Hu Huc Hv. pose proof (Hnoise u c Hu Huc) as Hne.
    apply core_at_spec in Hu as [Hu Hcu]. apply Hnb in Hv.
    destruct (Hcomplete u v c Huc Hne Hcu Hv) as [Hl Hsame].
    split; [done|]. intros [_ Hcv]%core_at_spec. by apply Hsame.
  - intros v c Hc Hne.
    assert (Hv : v < length X) by (apply lookup_lt_Some in Hc; lia).
    destruct (bool_decide
                (min_samples
                 <= length (default [] (DBSCAN.radius_neighbors near X !! v))))
      eqn:Hcv.
    + exists v. split; [by apply core_at_spec|]. split; [done|].
      apply Hnb. by apply (DBSCAN.nb_refl _ _ _ _ Hgraph).
    + destruct (Hborder v c Hc Hne Hcv) as (u & Hcu & Huc & Hvu).
      exists u. split; [|split; [done|by apply Hnb]].
      apply core_at_spec. split; [|done]. apply lookup_lt_Some in Huc. lia.
  - intros u v c Huc Hvc Hu Hv. pose proof (Hnoise u c Hu Huc) as Hne.
    apply core_at_spec in Hu as [_ Hcu]. apply core_at_spec in Hv as [_ Hcv].
    eapply rtc_subrel; [|exact (Hchain u v c Huc Hvc Hne Hcu Hcv)].
    intros a b (Ha & Hb & Hab).
    destruct (DBSCAN.nb_range _ _ _ _ Hgraph _ _ Hab) as [Han Hbn].
    split; [by apply core_at_spec|]. split; [by apply core_at_spec|].
    by apply Hnb.
Qed.

End fitted.

Lemma within_refl (eps x : R) : (0 <= eps)%R -> DBSCAN.within eps x x = true.
Proof.
  intros Heps. apply bool_decide_eq_true.
  replace (x - x)%R with 0%R by lra. by rewrite Rabs_R0.
Qed.

Lemma within_sym (eps x y : R) : DBSCAN.within eps x y = DBSCAN.within eps y x.
Proof. unfold DBSCAN.within. by rewrite Rabs_minus_sym. Qed.

(** The labels of [DBSCAN(eps=300, min_samples=3)]: one per timestamp,
    and every cluster number in use labels at least three positions. *)
Lemma fit_300_3_ok (times : list R) :
  length (DBSCAN.fit 300 3 times) = length times
  /\ forall v c,
       DBSCAN.fit 300 3 times !! v = Some c -> c <> (-1)%Z ->
       (3 <= length (DBSCAN.members (DBSCAN.fit 300 3 times) c))%nat.
Proof.
  apply fit_with_ok; [|apply within_sym|done].
  intros x. apply within_refl. lra.
Qed.

(** ** Pattern detection *)

Lemma select_length (labels : list Z) (i : Z) (times : list R) :
  length labels = length times ->
  length (select labels i times) = length (DBSCAN.members labels i).
Proof.
  unfold select, DBSCAN.members. rewrite length_fmap, indices_from_length.
  revert times. induction labels as [|c labels IH]; intros [|t times] Hlen;
    simpl in *; try done.
  rewrite filter_cons. simpl.
  destruct (decide (c = i)) as [->|Hne].
  - rewrite bool_decide_eq_true_2 by done. simpl. f_equal. apply IH. lia.
  - rewrite bool_decide_eq_false_2 by done. apply IH. lia.
Qed.

Lemma select_elem (labels : list Z) (i : Z) (times : list R) (x : R) :
  x ∈ select labels i times ->
  exists j, labels !! j = Some i /\ times !! j = Some x.
Proof.
  unfold select. intros ([c y] & -> & Hp)%list_elem_of_fmap.
  apply list_elem_of_filter in Hp as [Hc Hp]. simpl in *. subst c.
  apply list_elem_of_lookup in Hp as [j Hj].
  apply lookup_zip_Some in Hj. by exists j.
Qed.

Lemma clusters_elem (times cluster : list R) :
  cluster ∈ clusters times ->
  exists i v, i <> (-1)%Z
              /\ DBSCAN.fit 300 3 times !! v = Some i
              /\ cluster = select (DBSCAN.fit 300 3 times) i times.
Proof.
  unfold clusters. intros (i & -> & Hi)%list_elem_of_fmap.
  apply list_elem_of_filter in Hi as [Hne Hi].
  apply elem_of_elements, elem_of_list_to_set, list_elem_of_lookup in Hi
    as [v Hv].
  by exists i, v.
Qed.

Lemma clusters_size (times cluster : list R) :
  cluster ∈ clusters times -> (3 <= length cluster)%nat.
Proof.
  intros (i & v & Hne & Hv & ->)%clusters_elem.
  destruct (fit_300_3_ok times) as [Hlen Hsize].
  rewrite select_length by done. by apply (Hsize v).
Qed.

Lemma clusters_nonempty (times cluster : list R) :
  cluster ∈ clusters times -> cluster <> [].
Proof. intros Hs%clusters_size ->. simpl in Hs. lia. Qed.

Lemma clusters_all_noise (times : list R) :
  Forall (fun c => c = (-1)%Z) (DBSCAN.fit 300 3 times) -> clusters times = [].
Proof.
  intros Hnoise. destruct (clusters times) as [|cluster l] eqn:Hcl; [done|].
  assert (Hin : cluster ∈ clusters times) by (rewrite Hcl; by left).
  apply clusters_elem in Hin as (i & v & Hne & Hv & _).
  rewrite Forall_forall in Hnoise. destruct Hne. apply Hnoise.
  apply list_elem_of_lookup. by exists v.
Qed.

Lemma np_min_is_min (a : list R) : a <> [] -> is_min (np_min a) a.
Proof. destruct a; [done|]. intros _. apply fold_left_Rmin_is_min. Qed.

Lemma np_max_is_max (a : list R) : a <> [] -> is_max (np_max a) a.
Proof. destruct a; [done|]. intros _. apply fold_left_Rmax_is_max. Qed.

Lemma filter_bool_length {A} (P : A -> Prop) `{!forall x, Decision (P x)}
    (l : list A) :
  length (List.filter (fun x => bool_decide (P x)) l) = length (filter P l).
Proof.
  induction l as [|x l IH]; [done|]. rewrite filter_cons. simpl.
  destruct (decide (P x)).
  - rewrite bool_decide_eq_true_2 by done. simpl. by rewrite IH.
  - by rewrite bool_decide_eq_false_2 by done.
Qed.

Lemma within_radius_spec (times : list R) (u v : nat) :
  DBSCAN.near_at (DBSCAN.within 300) times u v <-> within_radius times u v.
Proof.
  unfold DBSCAN.near_at, within_radius, DBSCAN.within.
  split; intros (x & y & Hx & Hy & Hxy); exists x, y;
    (split; [done|]; split; [done|]).
  - by apply bool_decide_eq_true in Hxy.
  - by apply bool_decide_eq_true.
Qed.

Lemma dense_spec (times : list R) (u : nat) :
  DBSCAN.core_at (DBSCAN.within 300) 3 times u <-> dense times u.
Proof.
  unfold DBSCAN.core_at, dense, DBSCAN.within.
  split; intros (x & Hx & Hle); exists x; (split; [done|]).
  - by rewrite <- filter_bool_length.
  - by rewrite filter_bool_length.
Qed.

(** The labels of [DBSCAN(eps=300, min_samples=3)] in the
    specification's words. *)
Lemma fit_300_3_labels (times : list R) :
  let labels := DBSCAN.fit 300 3 times in
  (forall u, dense times u -> DBSCAN.labelled labels u)
  /\ (forall u v c, dense times u -> labels !! u = Some c ->
        within_radius times u v ->
        DBSCAN.labelled labels v /\ (dense times v -> labels !! v = Some c))
  /\ (forall v c, labels !! v = Some c -> c <> (-1)%Z ->
        exists u, dense times u /\ labels !! u = Some c
                  /\ within_radius times u v)
  /\ (forall u v c, labels !! u = Some c -> labels !! v = Some c ->
        dense times u -> dense times v -> rtc (density_linked times) u v).
Proof.
  intros labels.
  destruct (fit_with_labels (DBSCAN.within 300) times) with (min_samples := 3%nat)
    as (Hcore & Hcomplete & Hborder & Hchain).
  { intros x. apply within_refl. lra. }
  { apply within_sym. }
  { done. }
  change (DBSCAN.fit_with (DBSCAN.within 300) 3 times) with labels
    in Hcore, Hcomplete, Hborder, Hchain.
  split; [|split; [|split]].
  - intros u Hu%dense_spec. by apply Hcore.
  - intros u v c Hu%dense_spec Huc Hv%within_radius_spec.
    destruct (Hcomplete u v c Hu Huc Hv) as [Hl Hsame].
    split; [done|]. intros Hdv%dense_spec. by apply Hsame.
  - intros v c Hc Hne. destruct (Hborder v c Hc Hne) as (u & Hu & Huc & Huv).
    exists u. split; [by apply dense_spec|].
    split; [done|by apply within_radius_spec].
  - intros u v c Huc Hvc Hu%dense_spec Hv%dense_spec.
    eapply rtc_subrel; [|exact (Hchain u v c Huc Hvc Hu Hv)].
    intros a b (Ha & Hb & Hab).
    split; [by apply dense_spec|]. split; [by apply dense_spec|].
    by apply within_radius_spec.
Qed.

Lemma select_elem_iff (labels : list Z) (i : Z) (times : list R) (x : R) :
  x ∈ select labels i times
  <-> exists j, labels !! j = Some i /\ times !! j = Some x.
Proof.
  split; [apply select_elem|]. intros (j & Hl & Ht).
  unfold select. apply list_elem_of_fmap. exists (i, x). split; [done|].
  apply list_elem_of_filter. split; [done|].
  apply list_elem_of_lookup. exists j. by apply lookup_zip_Some.
Qed.

(** One cluster per cluster number in use, each number once. *)
Lemma clusters_spec (times : list R) :
  exists ids,
    NoDup ids
    /\ (forall i, i ∈ ids <-> i ∈ DBSCAN.fit 300 3 times /\ i <> (-1)%Z)
    /\ clusters times
       = map (fun i => select (DBSCAN.fit 300 3 times) i times) ids.
Proof.
  exists (filter (fun i : Z => i <> (-1)%Z)
                 (elements (list_to_set (C := gset Z) (DBSCAN.fit 300 3 times)))).
  split; [apply NoDup_filter, NoDup_elements|]. split; [|done].
  intros i. rewrite list_elem_of_filter, elem_of_elements, elem_of_list_to_set.
  tauto.
Qed.

(** A timestamp at a noise position occurs in no cluster, not even
    through an equal timestamp at another position. *)
Lemma noise_in_no_cluster (times cluster : list R) (j : nat) (x : R) :
  DBSCAN.fit 300 3 times !! j = Some (-1)%Z -> times !! j = Some x ->
  cluster ∈ clusters times -> x ∉ cluster.
Proof.
  intros Hj Hx (i & v & Hne & _ & ->)%clusters_elem Hin.
  apply select_elem in Hin as (j' & Hj' & Hx').
  destruct (fit_300_3_labels times) as (_ & Hcomplete & Hborder & _).
  destruct (Hborder j' i Hj' Hne) as (u & Hu & Hui & (a & b & Ha & Hb & Hab)).
  assert (Huj : within_radius times u j).
  { exists a, x. split; [done|]. split; [done|]. congruence. }
  destruct (Hcomplete u j i Hu Hui Huj) as [(c & Hc & Hcne) _]. congruence.
Qed.

(** C7. Pattern detection for a stored vehicle clusters all its crossing
    times with radius 300 and minimum size 3 and overwrites the
    vehicle's pattern list with one pattern per cluster, whatever the
    list held before; a record without crossings, which recording never
    produces, makes the clustering library raise.  The labels follow the
    radius and the minimum size: a position with at least three
    timestamps within 300 of its own is labelled; positions within 300
    of such a position are labelled, with the same label when they are
    dense themselves; every labelled position lies within 300 of a dense
    position of its cluster; and dense positions of one cluster are
    joined by a chain of dense positions, each within 300 of the next.
    There is exactly one cluster per label in use other than the noise
    label, made of the timestamps at the positions with that label; each
    cluster has at least 3 members and none holds the timestamp of a
    noise position; each pattern has the smallest member as
    [peak_start], the largest as [peak_end] and
    [1 / (population standard deviation + 1e-6)] as consistency; and the
    list is empty when every label is noise. *)
Theorem detect_patterns_clusters veh_id self hist :
  vehicles self !! veh_id = Some hist ->
  let times := map fst (crossings hist) in
  let labels := DBSCAN.fit 300 3 times in
  (times = [] -> _detect_patterns veh_id self = Raise ValueError)
  /\ (times <> [] ->
      _detect_patterns veh_id self
      = Ok (tt, set_vehicles
                  (<[veh_id :=
                       {| crossings := crossings hist;
                          patterns := Some (map pattern_of (clusters times)) |}]>
                     (vehicles self))
                  self))
  /\ length labels = length times
  /\ (forall u, dense times u -> DBSCAN.labelled labels u)
  /\ (forall u v c, dense times u -> labels !! u = Some c ->
        within_radius times u v ->
        DBSCAN.labelled labels v /\ (dense times v -> labels !! v = Some c))
  /\ (forall v c, labels !! v = Some c -> c <> (-1)%Z ->
        exists u, dense times u /\ labels !! u = Some c
                  /\ within_radius times u v)
  /\ (forall u v c, labels !! u = Some c -> labels !! v = Some c ->
        dense times u -> dense times v -> rtc (density_linked times) u v)
  /\ (exists ids,
        NoDup ids
        /\ (forall i, i ∈ ids <-> i ∈ labels /\ i <> (-1)%Z)
        /\ clusters times = map (fun i => select labels i times) ids)
  /\ (forall i x, x ∈ select labels i times
                  <-> exists j, labels !! j = Some i /\ times !! j = Some x)
  /\ (forall j x cluster,
        labels !! j = Some (-1)%Z -> times !! j = Some x ->
        cluster ∈ clusters times -> x ∉ cluster)
  /\ Forall (fun cluster =>
               (3 <= length cluster)%nat
               /\ is_min (peak_start (pattern_of cluster)) cluster
               /\ is_max (peak_end (pattern_of cluster)) cluster
               /\ consistency (pattern_of cluster)
                  = 1 / (sqrt (np_mean (map (fun x => (x - np_mean cluster) ^ 2)
                                            cluster))
                         + 1e-6))
            (clusters times)
  /\ (Forall (fun c => c = (-1)%Z) labels -> clusters times = []).
Proof.
  intros Hhist times labels.
  destruct (fit_300_3_labels times) as (Hcore & Hcomplete & Hborder & Hchain).
  split.
  { intros Hnil. apply (_detect_patterns_no_samples _ _ hist); [done|].
    by destruct (crossings hist). }
  split.
  { intros Hne. apply _detect_patterns_spec; [done|].
    intros Hnil. apply Hne. unfold times. by rewrite Hnil. }
  split; [apply fit_300_3_ok|].
  split; [exact Hcore|]. split; [exact Hcomplete|]. split; [exact Hborder|].
  split; [exact Hchain|]. split; [apply clusters_spec|].
  split; [intros i x; apply select_elem_iff|].
  split; [intros j x cluster; apply noise_in_no_cluster|].
  split; [|apply clusters_all_noise].
  apply Forall_forall. intros cluster Hin.
  split; [by apply (clusters_size times)|].
  pose proof (clusters_nonempty _ _ Hin).
  split; [by apply np_min_is_min|]. split; [by apply np_max_is_max|done].
Qed.

(** ** Scenario A: running the clustering *)

Lemma indices_from_ext {T} (P Q : T -> bool) (s : nat) (X : list T) :
  (forall x, P x = Q x) ->
  DBSCAN.indices_from P s X = DBSCAN.indices_from Q s X.
Proof.
  intros HPQ. revert s. induction X as [|x X IH]; intros s; simpl; [done|].
  by rewrite HPQ, IH.
Qed.

Lemma indices_from_fmap {T U} (f : T -> U) (P : U -> bool) (s : nat) (X : list T) :
  DBSCAN.indices_from P s (f <$> X) = DBSCAN.indices_from (fun x => P (f x)) s X.
Proof.
  revert s. induction X as [|x X IH]; intros s; simpl; [done|].
  by rewrite IH.
Qed.

(** The labels only depend on which samples are near which. *)
Lemma fit_with_fmap {T U} (f : T -> U) (nearT : T -> T -> bool)
    (nearU : U -> U -> bool) (min_samples : nat) (X : list T) :
  (forall x y, nearU (f x) (f y) = nearT x y) ->
  DBSCAN.fit_with nearU min_samples (f <$> X)
  = DBSCAN.fit_with nearT min_samples X.
Proof.
  intros Hnear. unfold DBSCAN.fit_with.
  assert (Hrows : DBSCAN.radius_neighbors nearU (f <$> X)
                  = DBSCAN.radius_neighbors nearT X).
  { unfold DBSCAN.radius_neighbors. rewrite <- list_fmap_compose.
    apply list_fmap_ext. intros _ x _. simpl.
    rewrite indices_from_fmap. by apply indices_from_ext. }
  by rewrite Hrows, length_fmap.
Qed.

Lemma within_IZR (eps x y : Z) :
  DBSCAN.within (IZR eps) (IZR x) (IZR y) = withinZ eps x y.
Proof.
  unfold DBSCAN.within, withinZ. apply bool_decide_ext.
  rewrite <- minus_IZR, <- abs_IZR. split; [apply le_IZR|apply IZR_le].
Qed.

Lemma fit_IZR (eps : Z) (min_samples : nat) (zs : list Z) :
  DBSCAN.fit (IZR eps) min_samples (IZR <$> zs)
  = DBSCAN.fit_with (withinZ eps) min_samples zs.
Proof. apply fit_with_fmap. apply within_IZR. Qed.

(** Scenario A: the five crossings at 0, 300, ..., 1200 form a single
    cluster that spans from 0 to 1200. *)
Lemma scenario_A_one_cluster :
  DBSCAN.fit 300 3 [0; 300; 600; 900; 1200] = [0; 0; 0; 0; 0]%Z
  /\ clusters [0; 300; 600; 900; 1200] = [[0; 300; 600; 900; 1200]]
  /\ peak_start (pattern_of [0; 300; 600; 900; 1200]) = 0
  /\ peak_end (pattern_of [0; 300; 600; 900; 1200]) = 1200.
Proof.
  assert (Hfit : DBSCAN.fit 300 3 [0; 300; 600; 900; 1200] = [0; 0; 0; 0; 0]%Z).
  { change [0; 300; 600; 900; 1200]
      with (IZR <$> [0; 300; 600; 900; 1200]%Z).
    rewrite fit_IZR. by vm_compute. }
  split; [done|]. split; [|split].
  - unfold clusters. rewrite Hfit.
    replace (elements (list_to_set (C := gset Z) [0; 0; 0; 0; 0]%Z))
      with [0%Z] by by vm_compute.
    reflexivity.
  - simpl. unfold Rmin. repeat (destruct (Rle_dec _ _); try lra).
  - simpl. unfold Rmax. repeat (destruct (Rle_dec _ _); try lra).
Qed.

Lemma scenario_A_consistency :
  consistency (pattern_of [0; 300; 600; 900; 1200]) = 1 / (sqrt 180000 + 1e-6).
Proof.
  unfold pattern_of, np_std, np_mean, np_sum. simpl.
  do 3 f_equal. lra.
Qed.

Lemma detect_patterns_clusters_witness :
  vehicles scenario_A_engine !! "n1"%string
  = Some {| crossings := [(0, NS); (300, NS); (600, NS); (900, NS); (1200, NS)];
            patterns := None |}
  /\ DBSCAN.fit 300 3 [0; 300; 600; 900; 1200] = [0; 0; 0; 0; 0]%Z
  /\ _detect_patterns "n1" scenario_A_engine
     = Ok (tt, set_vehicles
                 (<["n1"%string :=
                      {| crossings := [(0, NS); (300, NS); (600, NS);
                                       (900, NS); (1200, NS)];
                         patterns :=
                           Some [pattern_of [0; 300; 600; 900; 1200]] |}]>
                    (vehicles scenario_A_engine))
                 scenario_A_engine)
  /\ peak_start (pattern_of [0; 300; 600; 900; 1200]) = 0
  /\ peak_end (pattern_of [0; 300; 600; 900; 1200]) = 1200
  /\ consistency (pattern_of [0; 300; 600; 900; 1200])
     = 1 / (sqrt 180000 + 1e-6).
Proof.
  assert (Hhist : vehicles scenario_A_engine !! "n1"%string
                  = Some {| crossings := [(0, NS); (300, NS); (600, NS);
                                          (900, NS); (1200, NS)];
                            patterns := None |})
    by (simpl; apply lookup_insert_eq).
  destruct scenario_A_one_cluster as (Hfit & Hclusters & Hstart & Hend).
  split; [exact Hhist|]. split; [exact Hfit|].
  split; [|split; [exact Hstart|split; [exact Hend|apply scenario_A_consistency]]].
  destruct (detect_patterns_clusters "n1" scenario_A_engine _ Hhist)
    as (_ & Hrun & _).
  cbn [crossings map fst] in Hrun. rewrite Hclusters in Hrun.
  by apply Hrun.
Defined.

(** ** Further properties of the tick *)

Lemma split_by_direction (f : string -> R) (approach : string -> direction)
    (l : list string) :
  Rsum (map f (filter (fun v => approach v = NS) l))
  + Rsum (map f (filter (fun v => approach v = EW) l)) = Rsum (map f l)
  /\ (length (filter (fun v => approach v = NS) l)
      + length (filter (fun v => approach v = EW) l) = length l)%nat.
Proof.
  induction l as [|v l [IHs IHl]]; simpl; [split; [lra|done]|].
  rewrite !filter_cons. destruct (approach v) eqn:Hv; simpl;
    (split; [lra|lia]).
Qed.

Lemma get_direction_weight_base cls traci tls_id self t approach d :
  store_ok t (vehicles self) -> t <= getTime traci ->
  get_approach_direction cls = Some approach ->
  get_direction_weight cls traci tls_id self d
  = Ok (base_weight traci self approach (detect_vehicles traci tls_id) d
        * (if existsb (has_patterns self) (detect_vehicles traci tls_id)
           then 1.5 else 1)).
Proof.
  intros Hok Hle Happroach.
  rewrite (get_direction_weight_closed cls traci tls_id self approach Happroach)
    by by eapply priorities_ok.
  simpl. unfold base_weight, density_weight, time_boost_factor.
  destruct (existsb _ _); f_equal; lra.
Qed.

Lemma base_weight_bounds traci self t approach vehs d :
  store_ok t (vehicles self) -> t <= getTime traci ->
  0.3 * INR (length (filter (fun v => approach v = d) vehs))
  <= base_weight traci self approach vehs d.
Proof.
  intros Hok Hle. unfold base_weight.
  assert (0 <= Rsum (map (priority_value traci self)
                         (filter (fun v => approach v = d) vehs))); [|lra].
  apply Rsum_nonneg, Forall_map, Forall_forall. intros v _.
  by apply (priority_value_ok traci self v t).
Qed.



(** ** Durations and the pattern boost *)

Lemma clamp_inactive (x : R) : 15 <= x <= 60 -> clamp x 15 60 = x.
Proof.
  intros Hx. unfold clamp, Rmax, Rmin.
  destruct (Rle_dec 60 x); destruct (Rle_dec 15 _); lra.
Qed.

Lemma normalized_sum (a b : R) : a + b <> 0 -> a / (a + b) + b / (a + b) = 1.
Proof. intros H. field. exact H. Qed.

(** For weights that are not negative and not both zero, the two
    durations are [30 * (0.5 + weight / total)] unclamped: each lies
    between 15 and 45 seconds (the ceiling of 60 is never reached), the
    two add up to 60 seconds, and the direction with the higher weight
    gets the longer duration. *)
Theorem durations_split_sixty_seconds (w_NS w_EW : R) :
  0 <= w_NS -> 0 <= w_EW -> 0 < w_NS + w_EW ->
  exists d_NS d_EW,
    phase_duration w_NS (w_NS + w_EW) = Ok d_NS
    /\ phase_duration w_EW (w_NS + w_EW) = Ok d_EW
    /\ d_NS = 30 * (0.5 + w_NS / (w_NS + w_EW))
    /\ d_EW = 30 * (0.5 + w_EW / (w_NS + w_EW))
    /\ 15 <= d_NS <= 45
    /\ 15 <= d_EW <= 45
    /\ d_NS + d_EW = 60
    /\ (w_NS <= w_EW <-> d_NS <= d_EW).
Proof.
  intros HNS HEW Hpos.
  pose proof (div_unit w_NS (w_NS + w_EW)) as Hn.
  pose proof (div_unit w_EW (w_NS + w_EW)) as He.
  assert (0 <= w_NS / (w_NS + w_EW) <= 1) as Hn' by (apply Hn; lra).
  assert (0 <= w_EW / (w_NS + w_EW) <= 1) as He' by (apply He; lra).
  pose proof (normalized_sum w_NS w_EW) as Hone.
  assert (w_NS / (w_NS + w_EW) + w_EW / (w_NS + w_EW) = 1) as Hone'
    by (apply Hone; lra).
  exists (30 * (0.5 + w_NS / (w_NS + w_EW))), (30 * (0.5 + w_EW / (w_NS + w_EW))).
  split; [rewrite phase_duration_Ok by lra; f_equal; apply clamp_inactive; lra|].
  split; [rewrite phase_duration_Ok by lra; f_equal; apply clamp_inactive; lra|].
  split; [done|]. split; [done|]. split; [lra|]. split; [lra|].
  split; [lra|].
  assert (Hinv : 0 < / (w_NS + w_EW)) by by apply Rinv_0_lt_compat.
  unfold Rdiv in *. split; intros Hle; nra.
Qed.

Lemma durations_split_sixty_seconds_witness :
  0 <= 0.3 /\ 0 <= 0.6 /\ 0 < 0.3 + 0.6
  /\ exists d_NS d_EW,
       phase_duration 0.3 (0.3 + 0.6) = Ok d_NS
       /\ phase_duration 0.6 (0.3 + 0.6) = Ok d_EW
       /\ d_NS + d_EW = 60.
Proof.
  assert (H1 : 0 <= 0.3) by lra. assert (H2 : 0 <= 0.6) by lra.
  assert (H3 : 0 < 0.3 + 0.6) by lra.
  split; [exact H1|]. split; [exact H2|]. split; [exact H3|].
  destruct (durations_split_sixty_seconds 0.3 0.6 H1 H2 H3)
    as (d_NS & d_EW & HNS & HEW & _ & _ & _ & _ & Hsum & _).
  by exists d_NS, d_EW.
Defined.

Lemma scale_ratio (a b c x : R) :
  0 < c -> 0 < a + b -> x * c / (a * c + b * c) = x / (a + b).
Proof. intros Hc H. field. split; [lra|nra]. Qed.

(** The pattern boost multiplies both weights by the same factor (1.5
    when some in-range vehicle has a non-empty stored pattern list, 1
    otherwise), so it never shows in the outcome of a tick: the tick
    decides as if the weights were the unboosted demands of the two
    directions. *)
Theorem pattern_boost_never_changes_decision cls tls_id t self traci approach
    current switch :
  reachable cls tls_id t self -> t <= getTime traci ->
  get_approach_direction cls = Some approach ->
  get_current_direction cls = Some current ->
  set_phase_for_direction cls = Some switch ->
  List.find (is_emergency traci) (detect_vehicles traci tls_id) = None ->
  let in_range := detect_vehicles traci tls_id in
  let b_NS := base_weight traci self approach in_range NS in
  let b_EW := base_weight traci self approach in_range EW in
  exists boost,
    (some_pattern_in_range self in_range -> boost = 1.5)
    /\ (~ some_pattern_in_range self in_range -> boost = 1)
    /\ get_direction_weight cls traci tls_id self NS = Ok (b_NS * boost)
    /\ get_direction_weight cls traci tls_id self EW = Ok (b_EW * boost)
    /\ control_logic cls traci tls_id self =
         if decide (0 < b_NS + b_EW) then
           Ok (tt, issue (phase_decision_code tls_id b_NS b_EW
                            (clamp (30 * (0.5 + b_NS / (b_NS + b_EW))) 15 60)
                            (clamp (30 * (0.5 + b_EW / (b_NS + b_EW))) 15 60)
                            (current (getPhase traci tls_id))
                            (getNextSwitch traci tls_id - getTime traci)
                            switch)
                         self)
         else Ok (tt, self).
Proof.
  intros Hreach Hle Happroach Hcurrent Hswitch Hfind in_range b_NS b_EW.
  apply reachable_store_ok in Hreach as Hok.
  set (boost := if existsb (has_patterns self) in_range then 1.5 else 1).
  assert (Hboost : 0 < boost) by (unfold boost; destruct (existsb _ _); lra).
  assert (HNS : get_direction_weight cls traci tls_id self NS
                = Ok (b_NS * boost))
    by by apply (get_direction_weight_base _ _ _ _ t approach).
  assert (HEW : get_direction_weight cls traci tls_id self EW
                = Ok (b_EW * boost))
    by by apply (get_direction_weight_base _ _ _ _ t approach).
  exists boost. split; [|split; [|split; [done|split; [done|]]]].
  - intros Hsome%existsb_has_patterns. unfold boost. by rewrite Hsome.
  - intros Hnone. unfold boost.
    destruct (existsb (has_patterns self) in_range) eqn:Hex; [|done].
    destruct Hnone. by apply existsb_has_patterns.
  - rewrite (control_logic_scored _ _ _ _ (b_NS * boost) (b_EW * boost))
      by done.
    rewrite Hcurrent, Hswitch. simpl.
    destruct (decide (0 < b_NS + b_EW)) as [Hpos|Hneg].
    + rewrite decide_True by nra.
      unfold phase_decision_code.
      destruct (current (getPhase traci tls_id)) as [[|]|];
        rewrite ?scale_ratio by done; try done.
      destruct (decide (b_NS < b_EW)).
      * rewrite decide_True by nra. done.
      * rewrite decide_False by nra. done.
    + rewrite decide_False by nra. done.
Qed.

(** ** Further properties of the priority *)

(** For a vehicle with recorded crossings the priority computation
    divides by [1 + (now - last) / 3600]: it raises [ZeroDivisionError]
    when the clock reads exactly one hour before the last crossing, and
    returns a number at every other clock value. *)
Theorem priority_raises_one_hour_before_last traci self veh_id hist last_time d :
  vehicles self !! veh_id = Some hist ->
  last (crossings hist) = Some (last_time, d) ->
  (getTime traci = last_time - 3600 ->
   calculate_priority traci self veh_id = Raise ZeroDivisionError)
  /\ (getTime traci <> last_time - 3600 ->
      exists p, calculate_priority traci self veh_id = Ok p).
Proof.
  intros Hhist Hlast. unfold calculate_priority, recency_term.
  rewrite Hhist, Hlast. split.
  - intros Hnow. replace (1 + (getTime traci - last_time) / 3600) with 0
      by (rewrite Hnow; lra).
    by rewrite py_div_zero.
  - intros Hnow. rewrite py_div_Ok; [by eexists|].
    intros Hzero. apply Hnow. lra.
Qed.

Lemma priority_raises_one_hour_before_last_witness :
  vehicles sample_engine !! "n1"%string
  = Some {| crossings := [(100, NS)]; patterns := None |}
  /\ calculate_priority (tick [] passenger (-3500) 0 0) sample_engine "n1"
     = Raise ZeroDivisionError.
Proof.
  assert (Hhist : vehicles sample_engine !! "n1"%string
                  = Some {| crossings := [(100, NS)]; patterns := None |})
    by (simpl; apply lookup_insert_eq).
  split; [exact Hhist|].
  apply (priority_raises_one_hour_before_last (tick [] passenger (-3500) 0 0)
           sample_engine "n1" _ 100 NS Hhist eq_refl).
  simpl. lra.
Defined.

Lemma reachable_records_nonempty cls tls_id t self veh_id hist :
  reachable cls tls_id t self ->
  vehicles self !! veh_id = Some hist -> crossings hist <> [].
Proof.
  intros Hreach. revert veh_id hist.
  induction Hreach as [t|t self traci c self' _ IH Hle Hrun]; intros v hist.
  - simpl. by rewrite lookup_empty.
  - destruct c as [veh_id|]; simpl in Hrun.
    + destruct (get_approach_direction cls) as [approach|] eqn:Happroach;
        [|by rewrite update_vehicle_history_undefined in Hrun].
      rewrite (update_vehicle_history_spec _ _ _ _ approach) in Hrun by done.
      injection Hrun as <-. cbn [vehicles set_vehicles].
      destruct (decide (veh_id = v)) as [->|Hne].
      * rewrite lookup_insert_eq. intros [= <-]. cbn [crossings].
        intros Hnil. by apply app_eq_nil in Hnil as [_ ?].
      * rewrite lookup_insert_ne by done. apply IH.
    + rewrite (control_logic_store _ _ _ _ _ Hrun). apply IH.
Qed.

(** On a reachable engine state, with a clock that has not run
    backwards, the priority is 0 exactly for the vehicles without a
    record; every recorded vehicle has a strictly positive priority. *)
Theorem priority_zero_iff_unrecorded cls tls_id t self traci veh_id :
  reachable cls tls_id t self -> t <= getTime traci ->
  exists p,
    calculate_priority traci self veh_id = Ok p
    /\ (p = 0 <-> vehicles self !! veh_id = None)
    /\ (is_Some (vehicles self !! veh_id) -> 0 < p).
Proof.
  intros Hreach Hle. apply reachable_store_ok in Hreach as Hok.
  unfold calculate_priority.
  destruct (vehicles self !! veh_id) as [hist|] eqn:Hhist.
  - pose proof (reachable_records_nonempty _ _ _ _ _ _ Hreach Hhist) as Hne.
    destruct (Hok _ _ Hhist) as [Hc Hp].
    destruct (last (crossings hist)) as [[last_time d]|] eqn:Hlast;
      [|by apply last_None in Hlast].
    pose proof (last_Forall _ _ _ Hc Hlast) as Hlt. simpl in Hlt.
    rewrite recency_term_Ok by lra. simpl. eexists. split; [done|].
    pose proof (ln_nonneg (1 + INR (length (crossings hist)))) as Hln.
    pose proof (pos_INR (length (crossings hist))).
    pose proof (inv_ge_1 (1 + (getTime traci - last_time) / 3600)) as Hr.
    pose proof (consistency_term_pos (getTime traci) hist Hp).
    unfold weights_frequency, weights_recency, weights_consistency.
    assert (0 <= ln (1 + INR (length (crossings hist)))) by (apply Hln; lra).
    assert (0 < 1 / (1 + (getTime traci - last_time) / 3600)) by (apply Hr; lra).
    split; [split; [intros; exfalso; nra|done]|intros _; nra].
  - exists 0. split; [done|]. split; [done|]. by intros [? ?].
Qed.

Lemma priority_zero_iff_unrecorded_witness :
  let traci := tick ["n1"%string] passenger 3700 0 3710 in
  reachable (host "J1") "J1" 100 sample_engine
  /\ 100 <= getTime traci
  /\ exists p, calculate_priority traci sample_engine "n1" = Ok p /\ 0 < p.
Proof.
  intros traci.
  assert (Hle : 100 <= getTime traci) by (simpl; lra).
  split; [apply sample_engine_reachable|]. split; [exact Hle|].
  destruct (priority_zero_iff_unrecorded (host "J1") "J1" 100 sample_engine
              traci "n1" sample_engine_reachable Hle) as (p & Hp & _ & Hpos).
  exists p. split; [exact Hp|]. apply Hpos. simpl.
  rewrite lookup_insert_eq. by eexists.
Defined.

(** ** The stored patterns *)

Lemma batch_patterns_append (cs : list (R * direction)) (c : R * direction) :
  (if decide (length (cs ++ [c]) mod 5 = 0)%nat
   then Some (map pattern_of (clusters (map fst (cs ++ [c]))))
   else batch_patterns cs)
  = batch_patterns (cs ++ [c]).
Proof.
  unfold batch_patterns. rewrite !length_app. cbn [length].
  set (n := length cs).
  pose proof (Nat.div_mod_eq (n + 1) 5) as Hm.
  pose proof (Nat.div_mod_eq n 5) as Hn.
  pose proof (Nat.mod_upper_bound (n + 1) 5) as Hmu.
  pose proof (Nat.mod_upper_bound n 5) as Hnu.
  destruct (decide (((n + 1) mod 5)%nat = 0%nat)) as [Hz|Hnz].
  - rewrite decide_False by lia.
    replace (5 * ((n + 1) / 5))%nat with (length (cs ++ [c]))
      by (rewrite length_app; cbn [length]; fold n; lia).
    by rewrite firstn_all.
  - destruct (decide (n + 1 < 5)%nat) as [Hs|Hs].
    + by rewrite decide_True by lia.
    + rewrite decide_False by lia.
      replace (5 * ((n + 1) / 5))%nat with (5 * (n / 5))%nat by lia.
      rewrite take_app_le by (fold n; lia). done.
Qed.

Lemma reachable_batch_patterns cls tls_id t self veh_id hist :
  reachable cls tls_id t self ->
  vehicles self !! veh_id = Some hist ->
  patterns hist = batch_patterns (crossings hist).
Proof.
  intros Hreach. revert veh_id hist.
  induction Hreach as [t|t self traci c self' _ IH Hle Hrun]; intros v hist.
  - simpl. by rewrite lookup_empty.
  - destruct c as [veh_id|]; simpl in Hrun.
    + destruct (get_approach_direction cls) as [approach|] eqn:Happroach;
        [|by rewrite update_vehicle_history_undefined in Hrun].
      rewrite (update_vehicle_history_spec _ _ _ _ approach) in Hrun by done.
      injection Hrun as <-. cbn [vehicles set_vehicles].
      destruct (decide (veh_id = v)) as [->|Hne].
      * rewrite lookup_insert_eq. intros [= <-]. cbn [crossings patterns].
        rewrite <- batch_patterns_append.
        destruct (vehicles self !! v) as [old|] eqn:Hold; simpl.
        -- by rewrite (IH _ _ Hold).
        -- done.
      * rewrite lookup_insert_ne by done. apply IH.
    + rewrite (control_logic_store _ _ _ _ _ Hrun). apply IH.
Qed.

(** On a reachable engine state every record holds the patterns of its
    last batch: none while it has fewer than five crossings, and
    otherwise the clustering of its crossings up to the last multiple
    of five, so the up to four newest crossings are not yet reflected
    in the patterns. *)
Theorem patterns_lag_behind_crossings cls tls_id t self veh_id hist :
  reachable cls tls_id t self ->
  vehicles self !! veh_id = Some hist ->
  patterns hist = batch_patterns (crossings hist)
  /\ (patterns hist = None <-> (length (crossings hist) < 5)%nat).
Proof.
  intros Hreach Hhist.
  pose proof (reachable_batch_patterns _ _ _ _ _ _ Hreach Hhist) as Hbatch.
  split; [exact Hbatch|]. rewrite Hbatch. unfold batch_patterns.
  case_decide; split; done.
Qed.

Lemma patterns_lag_behind_crossings_witness :
  reachable (host "J1") "J1" 100 sample_engine
  /\ vehicles sample_engine !! "n1"%string
     = Some {| crossings := [(100, NS)]; patterns := None |}
  /\ None = batch_patterns [(100, NS)]
  /\ (None = None :> option (list Pattern)
      <-> (length [(100, NS)] < 5)%nat).
Proof.
  assert (Hhist : vehicles sample_engine !! "n1"%string
                  = Some {| crossings := [(100, NS)]; patterns := None |})
    by (simpl; apply lookup_insert_eq).
  split; [apply sample_engine_reachable|]. split; [exact Hhist|].
  exact (patterns_lag_behind_crossings (host "J1") "J1" 100 sample_engine "n1" _
           sample_engine_reachable Hhist).
Defined.

Lemma pattern_of_consistency_le (cluster : list R) :
  consistency (pattern_of cluster) <= 1000000.
Proof.
  simpl. unfold np_std.
  pose proof (sqrt_nonneg
                (np_mean (map (fun x => (x - np_mean cluster) ^ 2) cluster)))
    as Hs.
  set (s := sqrt _) in *.
  unfold Rdiv. rewrite Rmult_1_l.
  apply Rle_trans with (/ 1e-6); [apply Rinv_le_contravar; lra|lra].
Qed.

Lemma clusters_members (times cluster : list R) (x : R) :
  cluster ∈ clusters times -> x ∈ cluster -> x ∈ times.
Proof.
  intros (i & v & _ & _ & ->)%clusters_elem (j & _ & Hj)%select_elem.
  apply list_elem_of_lookup. by exists j.
Qed.

Lemma pattern_of_span (times cluster : list R) :
  cluster ∈ clusters times ->
  peak_start (pattern_of cluster) ∈ times
  /\ peak_end (pattern_of cluster) ∈ times
  /\ peak_start (pattern_of cluster) <= peak_end (pattern_of cluster).
Proof.
  intros Hin. pose proof (clusters_nonempty _ _ Hin) as Hne.
  destruct (np_min_is_min cluster Hne) as [Hmin_in Hmin].
  destruct (np_max_is_max cluster Hne) as [Hmax_in _].
  simpl. split; [by eapply clusters_members|].
  split; [by eapply clusters_members|]. by apply Hmin.
Qed.

(** On a reachable engine state every stored pattern starts and ends at
    crossing times of its own vehicle, with [peak_start <= peak_end],
    and its consistency lies in (0, 10^6]; a record only has patterns
    once it holds at least five crossings. *)
Theorem stored_patterns_bounded cls tls_id t self veh_id hist pats :
  reachable cls tls_id t self ->
  vehicles self !! veh_id = Some hist ->
  patterns hist = Some pats ->
  (5 <= length (crossings hist))%nat
  /\ Forall (fun p =>
               peak_start p ∈ map fst (crossings hist)
               /\ peak_end p ∈ map fst (crossings hist)
               /\ peak_start p <= peak_end p
               /\ 0 < consistency p <= 1000000) pats.
Proof.
  intros Hreach Hhist Hpats.
  rewrite (reachable_batch_patterns _ _ _ _ _ _ Hreach Hhist) in Hpats.
  unfold batch_patterns in Hpats. case_decide as Hlen; [done|].
  injection Hpats as <-. split; [lia|].
  apply Forall_map, Forall_forall. intros cluster Hin.
  destruct (pattern_of_span _ _ Hin) as (Hs & He & Hle).
  assert (Hsub : forall x,
            x ∈ map fst (take (5 * (length (crossings hist) / 5)) (crossings hist))
            -> x ∈ map fst (crossings hist)).
  { intros x (c & -> & Hc)%list_elem_of_fmap. apply list_elem_of_fmap.
    exists c. split; [done|].
    rewrite <- (take_drop (5 * (length (crossings hist) / 5)) (crossings hist)).
    apply elem_of_app. by left. }
  split; [by apply Hsub|]. split; [by apply Hsub|]. split; [done|].
  split; [apply pattern_of_consistency_pos|apply pattern_of_consistency_le].
Qed.

(** ** Identical timestamps *)

Lemma np_sum_const (t : R) (a : list R) :
  Forall (fun x => x = t) a -> np_sum a = INR (length a) * t.
Proof.
  induction 1 as [|x a -> _ IH]; [simpl; lra|].
  change (np_sum (t :: a)) with (t + np_sum a).
  rewrite IH. cbn [length]. rewrite S_INR. lra.
Qed.

Lemma np_mean_const (t : R) (a : list R) :
  a <> [] -> Forall (fun x => x = t) a -> np_mean a = t.
Proof.
  intros Hne Hall. unfold np_mean. rewrite (np_sum_const t) by done.
  field. apply not_0_INR. by destruct a.
Qed.

Lemma np_std_const (t : R) (a : list R) :
  a <> [] -> Forall (fun x => x = t) a -> np_std a = 0.
Proof.
  intros Hne Hall. unfold np_std. rewrite (np_mean_const t a) by done.
  rewrite (np_mean_const 0).
  - apply sqrt_0.
  - by destruct a.
  - apply Forall_map. eapply Forall_impl; [exact Hall|].
    intros x ->. simpl. lra.
Qed.

Lemma extremes_const (t : R) (cluster : list R) :
  cluster <> [] -> Forall (fun x => x = t) cluster ->
  np_min cluster = t /\ np_max cluster = t.
Proof.
  intros Hne Hall.
  destruct (np_min_is_min cluster Hne) as [Hmin _].
  destruct (np_max_is_max cluster Hne) as [Hmax _].
  rewrite Forall_forall in Hall. split; by apply Hall.
Qed.

(** A cluster of identical timestamps has standard deviation 0, so its
    pattern starts and ends at that timestamp and carries the largest
    consistency the formula can give, [1 / 1e-6 = 10^6]. *)
Theorem identical_timestamps_give_top_consistency (t : R) (cluster : list R) :
  cluster <> [] -> Forall (fun x => x = t) cluster ->
  pattern_of cluster
  = {| peak_start := t; peak_end := t; consistency := 1000000 |}.
Proof.
  intros Hne Hall. destruct (extremes_const t cluster Hne Hall) as [Hmin Hmax].
  unfold pattern_of. rewrite (np_std_const t) by done.
  rewrite Hmin, Hmax. f_equal. lra.
Qed.

Lemma identical_timestamps_give_top_consistency_witness :
  [7; 7; 7] <> []
  /\ Forall (fun x => x = 7) [7; 7; 7]
  /\ pattern_of [7; 7; 7]
     = {| peak_start := 7; peak_end := 7; consistency := 1000000 |}.
Proof.
  assert (Hne : [7; 7; 7] <> []) by discriminate.
  assert (Hall : Forall (fun x => x = 7) [7; 7; 7])
    by (repeat apply Forall_cons_2; try reflexivity; apply Forall_nil_2).
  split; [exact Hne|]. split; [exact Hall|].
  exact (identical_timestamps_give_top_consistency 7 [7; 7; 7] Hne Hall).
Defined.

Lemma clusters_five_identical (t : R) :
  clusters (replicate 5 t) = [replicate 5 t].
Proof.
  assert (Hfit : DBSCAN.fit 300 3 (replicate 5 t) = [0; 0; 0; 0; 0]%Z).
  { change (replicate 5 t) with ((fun _ : unit => t) <$> replicate 5 tt).
    unfold DBSCAN.fit.
    rewrite (fit_with_fmap _ (fun _ _ => true)).
    - by vm_compute.
    - intros _ _. apply within_refl. lra. }
  unfold clusters. rewrite Hfit.
  replace (elements (list_to_set (C := gset Z) [0; 0; 0; 0; 0]%Z))
    with [0%Z] by by vm_compute.
  reflexivity.
Qed.

Lemma batch_patterns_five_identical (t : R) (d : direction) :
  batch_patterns (replicate 5 (t, d))
  = Some [{| peak_start := t; peak_end := t; consistency := 1000000 |}].
Proof.
  unfold batch_patterns. rewrite decide_False by (simpl; lia).
  change (map fst (take (5 * (length (replicate 5 (t, d)) / 5))
                        (replicate 5 (t, d))))
    with (replicate 5 t).
  rewrite clusters_five_identical. cbn [map]. f_equal. f_equal.
  assert (Hall : Forall (fun x => x = t) (replicate 5 t))
    by (repeat apply Forall_cons_2; try reflexivity; apply Forall_nil_2).
  destruct (extremes_const t (replicate 5 t)) as [Hmin Hmax]; [done|done|].
  unfold pattern_of. rewrite (np_std_const t) by done.
  rewrite Hmin, Hmax. f_equal. lra.
Qed.

Lemma update_same_tick cls traci veh_id self approach (n : nat) :
  get_approach_direction cls = Some approach ->
  default {| crossings := []; patterns := None |} (vehicles self !! veh_id)
  = same_tick_record n (getTime traci) (approach veh_id) ->
  update_vehicle_history cls traci veh_id self
  = Ok (tt, set_vehicles
              (<[veh_id := same_tick_record (S n) (getTime traci)
                                            (approach veh_id)]>
                 (vehicles self)) self).
Proof.
  intros Happroach Hrec.
  rewrite (update_vehicle_history_spec _ _ _ _ approach) by done.
  cbv zeta. rewrite Hrec. unfold same_tick_record. cbn [crossings patterns].
  rewrite batch_patterns_append. by rewrite <- replicate_S_end.
Qed.

Lemma update_same_tick_again cls traci veh_id self approach (n : nat) :
  get_approach_direction cls = Some approach ->
  update_vehicle_history cls traci veh_id
    (set_vehicles
       (<[veh_id := same_tick_record n (getTime traci) (approach veh_id)]>
          (vehicles self)) self)
  = Ok (tt, set_vehicles
              (<[veh_id := same_tick_record (S n) (getTime traci)
                                            (approach veh_id)]>
                 (vehicles self)) self).
Proof.
  intros Happroach.
  rewrite (update_same_tick _ _ _ _ approach n) by
    (try done; cbn [vehicles set_vehicles]; by rewrite lookup_insert_eq).
  unfold set_vehicles. cbn [vehicles emergency_log issued].
  by rewrite insert_insert_eq.
Qed.

(** Recording is not idempotent: five calls of [update_vehicle_history]
    for a new vehicle within one tick store five identical crossings,
    and the fifth call clusters them into a single pattern with the
    top consistency [10^6]. *)
Theorem five_recordings_in_one_tick cls traci veh_id self approach :
  get_approach_direction cls = Some approach ->
  vehicles self !! veh_id = None ->
  (update_vehicle_history cls traci veh_id;;
   update_vehicle_history cls traci veh_id;;
   update_vehicle_history cls traci veh_id;;
   update_vehicle_history cls traci veh_id;;
   update_vehicle_history cls traci veh_id) self
  = Ok (tt, set_vehicles
              (<[veh_id :=
                   {| crossings := replicate 5 (getTime traci, approach veh_id);
                      patterns :=
                        Some [{| peak_start := getTime traci;
                                 peak_end := getTime traci;
                                 consistency := 1000000 |}] |}]>
                 (vehicles self)) self).
Proof.
  intros Happroach Hnew. unfold mbind, M_bind.
  rewrite (update_same_tick _ _ _ _ approach 0) by (try done; by rewrite Hnew).
  rewrite !(update_same_tick_again _ _ _ _ approach) by done.
  unfold same_tick_record. by rewrite batch_patterns_five_identical.
Qed.

Lemma five_recordings_in_one_tick_witness :
  let traci := tick [] passenger 0 0 0 in
  vehicles init !! "n1"%string = None
  /\ (update_vehicle_history (host "J1") traci "n1";;
      update_vehicle_history (host "J1") traci "n1";;
      update_vehicle_history (host "J1") traci "n1";;
      update_vehicle_history (host "J1") traci "n1";;
      update_vehicle_history (host "J1") traci "n1") init
     = Ok (tt, set_vehicles
                 (<["n1"%string :=
                      {| crossings := replicate 5 (0, NS);
                         patterns :=
                           Some [{| peak_start := 0; peak_end := 0;
                                    consistency := 1000000 |}] |}]> ∅) init).
Proof.
  intros traci.
  assert (Hnew : vehicles init !! "n1"%string = None) by apply lookup_empty.
  split; [exact Hnew|].
  exact (five_recordings_in_one_tick (host "J1") traci "n1" init _ eq_refl Hnew).
Defined.

Lemma same_tick_reachable cls tls_id t self traci veh_id approach (n : nat) :
  reachable cls tls_id t self -> t <= getTime traci ->
  get_approach_direction cls = Some approach ->
  vehicles self !! veh_id = None ->
  reachable cls tls_id (getTime traci)
    (set_vehicles
       (<[veh_id := same_tick_record (S n) (getTime traci) (approach veh_id)]>
          (vehicles self)) self).
Proof.
  intros Hreach Hle Happroach Hnew. induction n as [|n IH].
  - apply (reach_call cls tls_id t self traci (CallUpdate veh_id)); try done.
    simpl. apply (update_same_tick _ _ _ _ approach 0); [done|].
    by rewrite Hnew.
  - apply (reach_call cls tls_id (getTime traci) _ traci (CallUpdate veh_id)
             _ IH); [lra|].
    simpl. by apply update_same_tick_again.
Qed.

Lemma stored_patterns_bounded_witness :
  let self' :=
    set_vehicles (<["n1"%string := same_tick_record 5 0 NS]> ∅) init in
  let pats := [{| peak_start := 0; peak_end := 0; consistency := 1000000 |}] in
  reachable (host "J1") "J1" 0 self'
  /\ vehicles self' !! "n1"%string = Some (same_tick_record 5 0 NS)
  /\ patterns (same_tick_record 5 0 NS) = Some pats
  /\ Forall (fun p => 0 < consistency p <= 1000000) pats.
Proof.
  intros self' pats.
  assert (Hreach : reachable (host "J1") "J1" 0 self').
  { assert (Hle : 0 <= getTime (tick [] passenger 0 0 0)) by (simpl; lra).
    exact (same_tick_reachable (host "J1") "J1" 0 init
             (tick [] passenger 0 0 0) "n1"
             (fun v => if String.prefix "e" v then EW else NS) 4
             (reach_init _ _ 0) Hle eq_refl (lookup_empty _)). }
  assert (Hhist : vehicles self' !! "n1"%string = Some (same_tick_record 5 0 NS))
    by (simpl; apply lookup_insert_eq).
  assert (Hpats : patterns (same_tick_record 5 0 NS) = Some pats)
    by apply batch_patterns_five_identical.
  split; [exact Hreach|]. split; [exact Hhist|]. split; [exact Hpats|].
  destruct (stored_patterns_bounded (host "J1") "J1" 0 self' "n1" _ pats
              Hreach Hhist Hpats) as [_ Hall].
  eapply Forall_impl; [exact Hall|]. by intros p (_ & _ & _ & ?).
Defined.

(** ** Ticks on an engine with a stored pattern *)

Lemma pattern_engine_reachable : reachable (host "J1") "J1" 0 pattern_engine.
Proof.
  assert (Hle : 0 <= getTime (tick [] passenger 0 0 0)) by (simpl; lra).
  exact (same_tick_reachable (host "J1") "J1" 0 init
           (tick [] passenger 0 0 0) "n1"
           (fun v => if String.prefix "e" v then EW else NS) 4
           (reach_init _ _ 0) Hle eq_refl (lookup_empty _)).
Qed.

Lemma pattern_engine_in_range (vehs : list string) :
  "n1"%string ∈ vehs -> some_pattern_in_range pattern_engine vehs.
Proof.
  intros Hin.
  exists "n1"%string, (same_tick_record 5 0 NS),
         {| peak_start := 0; peak_end := 0; consistency := 1000000 |}, [].
  split; [done|]. split; [apply lookup_insert_eq|].
  apply batch_patterns_five_identical.
Qed.

(** The demand of the east-west approach when ["n1"] and ["e1"] are in
    range: ["e1"] has no record, so only its density counts. *)
Lemma pattern_engine_base_EW (now : R) (phase : Z) (next_switch : R) :
  base_weight (tick ["n1"; "e1"]%string passenger now phase next_switch)
              pattern_engine (fun v => if String.prefix "e" v then EW else NS)
              ["n1"; "e1"]%string EW
  = 0.3.
Proof.
  unfold base_weight.
  replace (filter (fun v : string => (if String.prefix "e" v then EW else NS) = EW)
                  ["n1"; "e1"]%string)
    with ["e1"%string] by reflexivity.
  cbn [map length Rsum foldr INR].
  unfold priority_value, calculate_priority, pattern_engine.
  cbn [vehicles set_vehicles].
  rewrite lookup_insert_ne by done. rewrite lookup_empty. lra.
Qed.

Lemma direction_weight_formula_witness :
  let traci := tick ["n1"; "e1"]%string passenger 60 0 70 in
  reachable (host "J1") "J1" 0 pattern_engine
  /\ 0 <= getTime traci
  /\ some_pattern_in_range pattern_engine (detect_vehicles traci "J1")
  /\ get_direction_weight (host "J1") traci "J1" pattern_engine EW = Ok 0.45.
Proof.
  intros traci.
  assert (Hle : 0 <= getTime traci) by (simpl; lra).
  assert (Hsome : some_pattern_in_range pattern_engine
                    (detect_vehicles traci "J1")).
  { unfold traci. rewrite detect_vehicles_tick.
    apply pattern_engine_in_range. by left. }
  split; [apply pattern_engine_reachable|]. split; [exact Hle|].
  split; [exact Hsome|].
  destruct (direction_weight_formula (host "J1") "J1" 0 pattern_engine traci
              _ EW pattern_engine_reachable Hle eq_refl)
    as (w & Hw & _ & Hboost & _).
  rewrite Hw, (Hboost Hsome). f_equal.
  pose proof (pattern_engine_base_EW 60 0 70) as Hbase.
  unfold base_weight in Hbase. unfold traci. rewrite detect_vehicles_tick.
  rewrite Hbase. lra.
Defined.

Lemma pattern_boost_never_changes_decision_witness :
  let traci := tick ["n1"; "e1"]%string passenger 60 0 70 in
  let approach := fun v : string => if String.prefix "e" v then EW else NS in
  let b_NS := base_weight traci pattern_engine approach
                          (detect_vehicles traci "J1") NS in
  let b_EW := base_weight traci pattern_engine approach
                          (detect_vehicles traci "J1") EW in
  reachable (host "J1") "J1" 0 pattern_engine
  /\ 0 <= getTime traci
  /\ List.find (is_emergency traci) (detect_vehicles traci "J1") = None
  /\ some_pattern_in_range pattern_engine (detect_vehicles traci "J1")
  /\ b_EW = 0.3
  /\ get_direction_weight (host "J1") traci "J1" pattern_engine NS
     = Ok (b_NS * 1.5)
  /\ get_direction_weight (host "J1") traci "J1" pattern_engine EW
     = Ok (0.3 * 1.5)
  /\ control_logic (host "J1") traci "J1" pattern_engine =
       if decide (0 < b_NS + b_EW) then
         Ok (tt, issue (phase_decision_code "J1" b_NS b_EW
                          (clamp (30 * (0.5 + b_NS / (b_NS + b_EW))) 15 60)
                          (clamp (30 * (0.5 + b_EW / (b_NS + b_EW))) 15 60)
                          (Some NS) (70 - 60)
                          (set_phase_for_direction_spec "J1"))
                       pattern_engine)
       else Ok (tt, pattern_engine).
Proof.
  intros traci approach b_NS b_EW.
  assert (Hle : 0 <= getTime traci) by (simpl; lra).
  assert (Hfind : List.find (is_emergency traci) (detect_vehicles traci "J1")
                  = None) by apply find_emergency_passengers.
  assert (Hsome : some_pattern_in_range pattern_engine
                    (detect_vehicles traci "J1")).
  { unfold traci. rewrite detect_vehicles_tick.
    apply pattern_engine_in_range. by left. }
  assert (HbEW : b_EW = 0.3).
  { unfold b_EW, traci. rewrite detect_vehicles_tick.
    apply pattern_engine_base_EW. }
  destruct (pattern_boost_never_changes_decision (host "J1") "J1" 0
              pattern_engine traci _ _ _ pattern_engine_reachable Hle
              eq_refl eq_refl eq_refl Hfind)
    as (boost & Hboost & _ & HNS & HEW & Hrun).
  rewrite (Hboost Hsome) in HNS, HEW.
  change (get_direction_weight (host "J1") traci "J1" pattern_engine EW
          = Ok (b_EW * 1.5)) in HEW.
  rewrite HbEW in HEW.
  split; [apply pattern_engine_reachable|]. split; [exact Hle|].
  split; [exact Hfind|]. split; [exact Hsome|]. split; [exact HbEW|].
  split; [exact HNS|]. split; [exact HEW|]. exact Hrun.
Defined.

Lemma ratio_le_numerator (hi lo : R) : 0 < hi -> 0 <= lo -> hi / (1 + lo) <= hi.
Proof.
  intros Hhi Hlo. destruct (inv_ge_1 (1 + lo)) as [Hpos Hle]; [lra|].
  unfold Rdiv in *. rewrite Rmult_1_l in Hle. nra.
Qed.

Lemma consistency_term_le (now : R) (hist : VehicleRecord) :
  (forall pats, patterns hist = Some pats ->
     Forall (fun p => 0 < consistency p <= 1000000) pats) ->
  consistency_term now hist <= 1000000.
Proof.
  intros Hbound. pose proof (consistency_term_spec now hist) as Hspec.
  destruct (patterns hist) as [[|p ps]|] eqn:Hp; try (rewrite Hspec; lra).
  destruct Hspec as (hi & lo & [Hhi _] & [Hlo _] & ->).
  apply list_elem_of_fmap in Hhi as (q & -> & Hq).
  apply list_elem_of_fmap in Hlo as (q' & -> & _).
  specialize (Hbound _ eq_refl). rewrite Forall_forall in Hbound.
  pose proof (Hbound _ Hq) as [Hpos Hle].
  pose proof (Rabs_pos (now - peak_start q')).
  etrans; [by apply ratio_le_numerator|done].
Qed.

(** On a reachable engine state, with a clock that has not run
    backwards, the priority of a recorded vehicle with [n] crossings is
    at most [0.4 * ln (1 + n) + 300000.3]: the recency term adds at most
    0.3 and the consistency term at most [0.3 * 10^6]. *)
Theorem priority_bounded_above cls tls_id t self traci veh_id hist :
  reachable cls tls_id t self -> t <= getTime traci ->
  vehicles self !! veh_id = Some hist ->
  exists p,
    calculate_priority traci self veh_id = Ok p
    /\ p <= 0.4 * ln (1 + INR (length (crossings hist))) + 300000.3.
Proof.
  intros Hreach Hle Hhist. apply reachable_store_ok in Hreach as Hok.
  pose proof (reachable_records_nonempty _ _ _ _ _ _ Hreach Hhist) as Hne.
  destruct (Hok _ _ Hhist) as [Hc _].
  unfold calculate_priority. rewrite Hhist.
  destruct (last (crossings hist)) as [[last_time d]|] eqn:Hlast;
    [|by apply last_None in Hlast].
  pose proof (last_Forall _ _ _ Hc Hlast) as Hlt. simpl in Hlt.
  rewrite recency_term_Ok by lra. simpl. eexists. split; [done|].
  assert (Hcons : consistency_term (getTime traci) hist <= 1000000).
  { apply consistency_term_le. intros pats Hpats.
    rewrite (reachable_batch_patterns _ _ _ _ _ _ Hreach Hhist) in Hpats.
    unfold batch_patterns in Hpats. case_decide; [done|].
    injection Hpats as <-. apply Forall_map, Forall_forall. intros cluster _.
    split; [apply pattern_of_consistency_pos|apply pattern_of_consistency_le]. }
  destruct (inv_ge_1 (1 + (getTime traci - last_time) / 3600)) as [_ Hrec];
    [lra|].
  unfold weights_frequency, weights_recency, weights_consistency. lra.
Qed.

Lemma priority_bounded_above_witness :
  let traci := tick ["n1"%string] passenger 3700 0 3710 in
  reachable (host "J1") "J1" 100 sample_engine
  /\ 100 <= getTime traci
  /\ vehicles sample_engine !! "n1"%string
     = Some {| crossings := [(100, NS)]; patterns := None |}
  /\ exists p,
       calculate_priority traci sample_engine "n1" = Ok p
       /\ p <= 0.4 * ln (1 + INR 1) + 300000.3.
Proof.
  intros traci.
  assert (Hle : 100 <= getTime traci) by (simpl; lra).
  assert (Hhist : vehicles sample_engine !! "n1"%string
                  = Some {| crossings := [(100, NS)]; patterns := None |})
    by (simpl; apply lookup_insert_eq).
  split; [apply sample_engine_reachable|]. split; [exact Hle|].
  split; [exact Hhist|].
  exact (priority_bounded_above (host "J1") "J1" 100 sample_engine traci "n1" _
           sample_engine_reachable Hle Hhist).
Defined.

(** ** The driving loop *)

Lemma run_iteration_as_written tls_id period traci self :
  run_iteration AdaptiveTrafficLight tls_id period traci self
  = (self,
     match detect_vehicles traci tls_id with
     | [] => None
     | _ :: _ =>
         Some (AttributeError
                 (if existsb (is_emergency traci) (detect_vehicles traci tls_id)
                  then "handle_emergency" else "get_approach_direction"))
     end).
Proof.
  unfold run_iteration. rewrite control_logic_as_written.
  destruct (detect_vehicles traci tls_id) as [|v l] eqn:Hdet; [|done].
  case_decide; [|done].
  by rewrite !get_direction_weight_nobody.
Qed.

(** With the class as written, the driving loop never changes the
    engine: no crossing is recorded and no command is sent, whatever
    the simulator reports.  The loop runs to the end exactly when no
    step detects a vehicle; otherwise it is left early with an
    attribute-lookup error. *)
Theorem run_as_written_never_acts tls_id period steps self :
  (run AdaptiveTrafficLight tls_id period steps self).1 = self
  /\ ((run AdaptiveTrafficLight tls_id period steps self).2 = None
      <-> Forall (fun traci => detect_vehicles traci tls_id = []) steps)
  /\ (forall e, (run AdaptiveTrafficLight tls_id period steps self).2 = Some e ->
        exists name, e = AttributeError name).
Proof.
  induction steps as [|traci steps (IHs & IHn & IHe)]; simpl.
  - split; [done|]. split; [split; [constructor|done]|]. by intros e.
  - rewrite run_iteration_as_written.
    destruct (detect_vehicles traci tls_id) as [|v l] eqn:Hdet.
    + split; [done|]. split; [|done].
      rewrite IHn. split; [by constructor|]. by intros [_ ?]%Forall_cons.
    + simpl. split; [done|]. split.
      * split; [done|]. intros [Habs _]%Forall_cons. congruence.
      * intros e [= <-]. by eexists.
Qed.

Lemma run_iteration_store cls tls_id period traci self :
  vehicles (run_iteration cls tls_id period traci self).1 = vehicles self.
Proof.
  unfold run_iteration.
  destruct (control_logic cls traci tls_id self) as [[[] self1]|e] eqn:Hrun;
    [|done].
  apply control_logic_store in Hrun.
  case_decide; [|done].
  by destruct (_ ≫= _).
Qed.

Lemma run_store cls tls_id period steps self :
  vehicles (run cls tls_id period steps self).1 = vehicles self.
Proof.
  revert self. induction steps as [|traci steps IH]; intros self; simpl; [done|].
  pose proof (run_iteration_store cls tls_id period traci self) as Hit.
  destruct (run_iteration cls tls_id period traci self) as [self1 [e|]];
    simpl in *; [done|].
  by rewrite IH.
Qed.

Lemma calculate_priority_empty_store traci self veh_id :
  vehicles self = ∅ -> calculate_priority traci self veh_id = Ok 0.
Proof.
  intros Hempty. unfold calculate_priority. by rewrite Hempty, lookup_empty.
Qed.

Lemma get_direction_weight_empty_store cls traci tls_id self approach d :
  vehicles self = ∅ ->
  get_approach_direction cls = Some approach ->
  get_direction_weight cls traci tls_id self d
  = Ok (0.3 * INR (length (filter (fun v => approach v = d)
                                  (detect_vehicles traci tls_id)))).
Proof.
  intros Hempty Happroach.
  rewrite (get_direction_weight_closed cls traci tls_id self approach Happroach).
  - simpl.
    assert (Hsum : forall l, Rsum (map (priority_value traci self) l) = 0).
    { induction l as [|v l IH]; simpl; [done|].
      rewrite IH. unfold priority_value.
      rewrite calculate_priority_empty_store by done. lra. }
    assert (Hno : forall l, existsb (has_patterns self) l = false).
    { induction l as [|v l IH]; simpl; [done|].
      rewrite IH. unfold has_patterns. by rewrite Hempty, lookup_empty. }
    rewrite Hsum, Hno. unfold density_weight. f_equal. lra.
  - apply Forall_forall. intros v _. exists 0.
    by apply calculate_priority_empty_store.
Qed.

(** The driving loop only ever calls [control_logic], which records
    nothing.  So however long a fresh engine has been driven, its store
    is still empty, every priority is 0, no boost applies, and the
    weight of a direction is 0.3 times the number of detected vehicles
    approaching in it: the loop runs a pure density controller. *)
Theorem driven_engine_scores_density_only cls tls_id period steps approach traci d :
  get_approach_direction cls = Some approach ->
  let self' := (run cls tls_id period steps init).1 in
  vehicles self' = ∅
  /\ (forall veh_id, calculate_priority traci self' veh_id = Ok 0)
  /\ get_direction_weight cls traci tls_id self' d
     = Ok (0.3 * INR (length (filter (fun v => approach v = d)
                                     (detect_vehicles traci tls_id)))).
Proof.
  intros Happroach self'.
  assert (Hempty : vehicles self' = ∅) by apply run_store.
  split; [exact Hempty|]. split.
  - intros veh_id. by apply calculate_priority_empty_store.
  - by apply get_direction_weight_empty_store.
Qed.

Lemma driven_engine_scores_density_only_witness :
  let steps := [tick ["n1"; "e1"; "e2"]%string passenger 100 0 110;
                tick ["n1"; "e2"]%string passenger 101 0 110] in
  let traci := tick ["n1"; "e2"]%string passenger 102 0 110 in
  get_approach_direction (host "J1")
  = Some (fun v => if String.prefix "e" v then EW else NS)
  /\ vehicles (run (host "J1") "J1" 10 steps init).1 = ∅
  /\ get_direction_weight (host "J1") traci "J1"
       (run (host "J1") "J1" 10 steps init).1 EW
     = Ok (0.3 * INR (length (filter (fun v => (if String.prefix "e" v
                                                then EW else NS) = EW)
                                     (detect_vehicles traci "J1")))).
Proof.
  intros steps traci. split; [reflexivity|].
  destruct (driven_engine_scores_density_only (host "J1") "J1" 10 steps _ traci
              EW eq_refl) as (Hempty & _ & Hw).
  by split.
Defined.

(** ** More on completed ticks *)

(** With all four helper methods supplied, a tick on a reachable engine
    state (clock not run backwards) never raises: it ends in the
    emergency command, in a phase decision, or silently. *)
Theorem completed_class_tick_never_raises cls tls_id t self traci
    approach handler current switch :
  reachable cls tls_id t self -> t <= getTime traci ->
  get_approach_direction cls = Some approach ->
  handle_emergency cls = Some handler ->
  get_current_direction cls = Some current ->
  set_phase_for_direction cls = Some switch ->
  exists cs, control_logic cls traci tls_id self = Ok (tt, issue cs self).
Proof.
  intros Hreach Hle Happroach Hhandler Hcurrent Hswitch.
  apply reachable_store_ok in Hreach as Hok.
  destruct (List.find (is_emergency traci) (detect_vehicles traci tls_id))
    as [veh_id|] eqn:Hfind.
  - unfold control_logic. rewrite Hfind, Hhandler. by eexists.
  - destruct (get_direction_weight_ok cls traci tls_id self t approach NS
                Hok Hle Happroach) as (w_NS & HNS & _).
    destruct (get_direction_weight_ok cls traci tls_id self t approach EW
                Hok Hle Happroach) as (w_EW & HEW & _).
    rewrite (control_logic_scored _ _ _ _ w_NS w_EW) by done.
    rewrite Hcurrent, Hswitch. simpl.
    case_decide; [|exists []; by rewrite issue_nil].
    destruct (current (getPhase traci tls_id)); by eexists.
Qed.

Lemma completed_class_tick_never_raises_witness :
  let traci := tick ["n1"%string] passenger 3700 0 3710 in
  reachable (host "J1") "J1" 100 sample_engine
  /\ 100 <= getTime traci
  /\ exists cs,
       control_logic (host "J1") traci "J1" sample_engine
       = Ok (tt, issue cs sample_engine).
Proof.
  intros traci.
  assert (Hle : 100 <= getTime traci) by (simpl; lra).
  split; [apply sample_engine_reachable|]. split; [exact Hle|].
  exact (completed_class_tick_never_raises (host "J1") "J1" 100 sample_engine
           traci _ _ _ _ sample_engine_reachable Hle
           eq_refl eq_refl eq_refl eq_refl).
Defined.

Lemma other_direction_count (approach : string -> direction) (d : direction)
    (l : list string) :
  filter (fun v => approach v = d) l = [] ->
  length (filter (fun v => approach v = opposite d) l) = length l.
Proof.
  intros Hnone. destruct (split_by_direction (fun _ => 0) approach l) as [_ Hlen].
  destruct d; simpl; rewrite Hnone in Hlen; simpl in Hlen; lia.
Qed.

(** When vehicles are in range but none approaches in direction [d],
    that direction's weight is 0 and it gets the floor duration of
    15 s, while the opposite direction gets 45 s. *)
Theorem empty_approach_gets_floor cls tls_id t self traci approach d :
  reachable cls tls_id t self -> t <= getTime traci ->
  get_approach_direction cls = Some approach ->
  detect_vehicles traci tls_id <> [] ->
  filter (fun v => approach v = d) (detect_vehicles traci tls_id) = [] ->
  exists w',
    get_direction_weight cls traci tls_id self d = Ok 0
    /\ get_direction_weight cls traci tls_id self (opposite d) = Ok w'
    /\ 0 < w'
    /\ phase_duration 0 (0 + w') = Ok 15
    /\ phase_duration w' (0 + w') = Ok 45.
Proof.
  intros Hreach Hle Happroach Hsome Hnone.
  apply reachable_store_ok in Hreach as Hok.
  pose proof (get_direction_weight_base cls traci tls_id self t approach d
                Hok Hle Happroach) as Hd.
  pose proof (get_direction_weight_base cls traci tls_id self t approach
                (opposite d) Hok Hle Happroach) as Ho.
  pose proof (base_weight_bounds traci self t approach
                (detect_vehicles traci tls_id) (opposite d) Hok Hle) as Hlow.
  rewrite (other_direction_count approach d) in Hlow by done.
  assert (Hone : 1 <= INR (length (detect_vehicles traci tls_id))).
  { change 1 with (INR 1). apply le_INR.
    destruct (detect_vehicles traci tls_id); [done|simpl; lia]. }
  set (boost := if existsb (has_patterns self) (detect_vehicles traci tls_id)
                then 1.5 else 1) in *.
  assert (Hboost : 1 <= boost) by (unfold boost; destruct (existsb _ _); lra).
  eexists. split; [|split; [exact Ho|]].
  - rewrite Hd. unfold base_weight. rewrite Hnone. simpl. f_equal. lra.
  - set (b := base_weight _ _ _ _ (opposite d)) in *.
    assert (Hpos : 0 < b * boost) by nra.
    split; [done|]. split.
    + rewrite phase_duration_Ok by lra. f_equal.
      replace (30 * (0.5 + 0 / (0 + b * boost))) with 15
        by (unfold Rdiv; lra).
      apply clamp_inactive. lra.
    + rewrite phase_duration_Ok by lra. f_equal.
      assert (Hr : b * boost / (0 + b * boost) = 1)
        by (rewrite Rplus_0_l; apply Rdiv_diag; lra).
      rewrite Hr. replace (30 * (0.5 + 1)) with 45 by lra.
      apply clamp_inactive. lra.
Qed.

Lemma empty_approach_gets_floor_witness :
  let traci := tick ["n1"%string] passenger 3700 0 3710 in
  reachable (host "J1") "J1" 100 sample_engine
  /\ 100 <= getTime traci
  /\ detect_vehicles traci "J1" <> []
  /\ exists w',
       get_direction_weight (host "J1") traci "J1" sample_engine EW = Ok 0
       /\ get_direction_weight (host "J1") traci "J1" sample_engine NS = Ok w'
       /\ phase_duration 0 (0 + w') = Ok 15
       /\ phase_duration w' (0 + w') = Ok 45.
Proof.
  intros traci.
  assert (Hle : 100 <= getTime traci) by (simpl; lra).
  assert (Hsome : detect_vehicles traci "J1" <> [])
    by (unfold traci; by rewrite detect_vehicles_tick).
  assert (Hnone : filter (fun v => (if String.prefix "e" v then EW else NS) = EW)
                         (detect_vehicles traci "J1") = [])
    by (unfold traci; by rewrite detect_vehicles_tick).
  split; [apply sample_engine_reachable|]. split; [exact Hle|].
  split; [exact Hsome|].
  destruct (empty_approach_gets_floor (host "J1") "J1" 100 sample_engine traci
              _ EW sample_engine_reachable Hle eq_refl Hsome Hnone)
    as (w' & Hd & Ho & _ & H15 & H45).
  by exists w'.
Defined.
